(** * Streamflow statistics and metrics (program_10.py)

    A shallow embedding of the analysis functions of [program_10.py]:
    [ReadData], [ClipData], the metric kernels [CalcTqmean], [CalcRBindex],
    [Calc7Q], [CalcExceed3TimesMedian], and the two aggregations
    [GetAnnualStatistics] and [GetMonthlyStatistics].

    Numbers.  A discharge entry of a pandas Series is either a number or
    NaN.  Numbers are modelled by exact rationals [Q]; NaN by [None].  The
    value of a numpy division can moreover be an infinity, so results are
    of type [np_float].  Rounding of binary64 arithmetic is not modelled
    in these definitions: the theorems stated on them are about exact
    arithmetic with the NaN and division-by-zero behaviour of numpy
    written out.  Where the rounding of the mean decides the result, in
    [CalcTqmean], module [B64] gives the function on binary64 numbers. *)

From Stdlib Require Import String List Bool Arith ZArith QArith Qabs Lia Lqa FinFun.
From Stdlib Require Import Sorted Permutation.
From Stdlib Require PrimFloat FloatOps SpecFloat Uint63.
Import ListNotations.

Open Scope Q_scope.

(** ** numpy scalars *)

Inductive np_float : Type :=
| nan : np_float
| inf (negative : bool) : np_float
| fin (q : Q) : np_float.

(** Equality of results up to the representation of a rational. *)
Definition feq (x y : np_float) : Prop :=
  match x, y with
  | nan, nan => True
  | inf a, inf b => a = b
  | fin p, fin q => p == q
  | _, _ => False
  end.

Definition is_finite (x : np_float) : bool :=
  match x with fin _ => true | _ => false end.

Definition Qltb (x y : Q) : bool := negb (Qle_bool y x).

Definition Qeqb (x y : Q) : bool := Qeq_bool x y.

(** [a / b] on numpy scalars: a zero divisor gives NaN or an infinity
    (with a warning), never an exception. *)
Definition np_div (a b : np_float) : np_float :=
  match a, b with
  | nan, _ | _, nan => nan
  | inf _, inf _ => nan
  | inf s, fin q => inf (xorb s (Qltb q 0))
  | fin _, inf _ => fin 0
  | fin p, fin q =>
      if Qeqb q 0 then
        if Qeqb p 0 then nan else inf (Qltb p 0)
      else fin (p / q)
  end.

Definition np_mul (a b : np_float) : np_float :=
  match a, b with
  | nan, _ | _, nan => nan
  | inf s, inf t => inf (xorb s t)
  | inf s, fin q | fin q, inf s =>
      if Qeqb q 0 then nan else inf (xorb s (Qltb q 0))
  | fin p, fin q => fin (p * q)
  end.

(** [x > m] elementwise: a comparison with NaN is False. *)
Definition np_gt (x : option Q) (m : np_float) : bool :=
  match x, m with
  | Some v, fin q => Qltb q v
  | Some _, inf s => s
  | _, _ => false
  end.

(** ** pandas Series of float64 *)

Definition Series := list (option Q).

Fixpoint dropna (s : Series) : list Q :=
  match s with
  | [] => []
  | Some q :: t => q :: dropna t
  | None :: t => dropna t
  end.

Definition isna (x : option Q) : bool :=
  match x with None => true | Some _ => false end.

Definition Qsum (l : list Q) : Q := fold_right Qplus 0 l.

Definition Qof_nat (n : nat) : Q := inject_Z (Z.of_nat n).

(** [Series.sum()]: NaN skipped, the empty sum is 0. *)
Definition sum (s : Series) : Q := Qsum (dropna s).

(** [Series.count()]: number of entries that are not NaN. *)
Definition count (s : Series) : nat := length (dropna s).

(** [Series.mean()]: NaN skipped, NaN when nothing is left. *)
Definition mean (s : Series) : np_float :=
  match dropna s with
  | [] => nan
  | _ :: _ => fin (sum s / Qof_nat (count s))
  end.

Definition Qminb (x y : Q) : Q := if Qle_bool x y then x else y.
Definition Qmaxb (x y : Q) : Q := if Qle_bool x y then y else x.

Fixpoint Qlist_min (x : Q) (l : list Q) : Q :=
  match l with
  | [] => x
  | y :: t => Qlist_min (Qminb x y) t
  end.

Fixpoint Qlist_max (x : Q) (l : list Q) : Q :=
  match l with
  | [] => x
  | y :: t => Qlist_max (Qmaxb x y) t
  end.

(** [Series.min()] and [Series.max()]: NaN skipped. *)
Definition min (s : Series) : np_float :=
  match dropna s with
  | [] => nan
  | x :: t => fin (Qlist_min x t)
  end.

Definition max (s : Series) : np_float :=
  match dropna s with
  | [] => nan
  | x :: t => fin (Qlist_max x t)
  end.

Fixpoint insert_sorted (x : Q) (l : list Q) : list Q :=
  match l with
  | [] => [x]
  | y :: t => if Qle_bool x y then x :: l else y :: insert_sorted x t
  end.

Definition sort (l : list Q) : list Q := fold_right insert_sorted [] l.

(** [Series.median()]: NaN skipped; the middle value, or the mean of the
    two middle values. *)
Definition median (s : Series) : np_float :=
  let v := sort (dropna s) in
  let n := length v in
  match n with
  | O => nan
  | _ =>
      if Nat.even n
      then fin ((nth (n / 2 - 1) v 0 + nth (n / 2) v 0) / 2)
      else fin (nth (n / 2) v 0)
  end.

(** [(Qvalues > m).sum()]: number of entries strictly above [m]. *)
Definition count_gt (s : Series) (m : np_float) : nat :=
  length (filter (fun x => np_gt x m) s).

(** [Series.diff()]: first entry NaN, then the difference with the
    previous entry; NaN propagates. *)
Definition sub_opt (x y : option Q) : option Q :=
  match x, y with
  | Some a, Some b => Some (a - b)
  | _, _ => None
  end.

Fixpoint diff_from (prev : option Q) (s : Series) : Series :=
  match s with
  | [] => []
  | x :: t => sub_opt x prev :: diff_from x t
  end.

Definition diff (s : Series) : Series := diff_from None s.

(** [Series.abs()]. *)
Definition abs (s : Series) : Series := map (option_map Qabs) s.

(** [Series.rolling(w).mean()]: entry [i] is the mean of the [w] entries
    ending at [i]; it is NaN when fewer than [w] observations of the
    window are present (min_periods defaults to the window size). *)
Definition window_mean (w : nat) (win : Series) : option Q :=
  if (w <=? count win)%nat
  then Some (sum win / Qof_nat (count win))
  else None.

Definition window_at (w : nat) (s : Series) (i : nat) : Series :=
  firstn w (skipn (i + 1 - w) s).

Definition rolling_mean (w : nat) (s : Series) : Series :=
  map (fun i => if (i + 1 <? w)%nat then None
                else window_mean w (window_at w s i))
      (seq 0 (length s)).

(** ** The metric kernels *)

Definition CalcTqmean (Qvalues : Series) : np_float :=
  let vals_gt_mean := count_gt Qvalues (mean Qvalues) in
  np_div (fin (Qof_nat vals_gt_mean)) (fin (Qof_nat (length Qvalues))).

Definition CalcRBindex (Qvalues : Series) : np_float :=
  let Dtd_abs_diff := abs (diff Qvalues) in
  let pathlength := sum Dtd_abs_diff in
  let discharge_tot := sum Qvalues in
  np_div (fin pathlength) (fin discharge_tot).

Definition Calc7Q (Qvalues : Series) : np_float :=
  min (rolling_mean 7 Qvalues).

Definition CalcExceed3TimesMedian (Qvalues : Series) : nat :=
  let median_flow := median Qvalues in
  count_gt Qvalues (np_mul (fin 3) median_flow).

(** ** Standard deviation and skewness

    [Series.std()] (ddof = 1) and [Series.skew()] need a square root, which
    is not rational: it is a parameter of the development.  Their NaN
    guards are those of pandas: fewer than two, respectively three,
    observations give NaN. *)

Section Moments.

Variable sqrtQ : Q -> Q.

Definition sum_pow_dev (k : positive) (v : list Q) : Q :=
  let avg := Qsum v / Qof_nat (length v) in
  Qsum (map (fun x => Qpower_positive (x - avg) k) v).

Definition std (s : Series) : np_float :=
  let v := dropna s in
  let n := length v in
  if (n <=? 1)%nat then nan
  else fin (sqrtQ (sum_pow_dev 2 v / Qof_nat (n - 1))).

Definition skew (s : Series) : np_float :=
  let v := dropna s in
  let n := length v in
  if (n <? 3)%nat then nan
  else
    let m2 := sum_pow_dev 2 v in
    let m3 := sum_pow_dev 3 v in
    if Qeqb m2 0 then fin 0
    else fin (Qof_nat n * sqrtQ (Qof_nat (n - 1)) / Qof_nat (n - 2)
              * (m3 / (m2 * sqrtQ m2))).

End Moments.

(** ** The time-indexed DataFrame *)

Record Timestamp : Type := mkTimestamp {
  year : Z;
  month : Z;
  day : Z
}.

Definition ts_eqb (a b : Timestamp) : bool :=
  ((year a =? year b) && (month a =? month b) && (day a =? day b))%Z.

Definition ts_ltb (a b : Timestamp) : bool :=
  ((year a <? year b)
   || ((year a =? year b)
       && ((month a <? month b)
           || ((month a =? month b) && (day a <? day b)))))%Z.

Definition ts_leb (a b : Timestamp) : bool := negb (ts_ltb b a).

Definition is_leap (y : Z) : bool :=
  ((y mod 4 =? 0) && (negb (y mod 100 =? 0) || (y mod 400 =? 0)))%Z.

Definition days_in_month (y m : Z) : Z :=
  if (m =? 2)%Z then (if is_leap y then 28 + 1 else 28)%Z
  else if ((m =? 4) || (m =? 6) || (m =? 9) || (m =? 11))%Z then 30%Z
  else 31%Z.

(** A day of the calendar: what [parse_dates] accepts. *)
Definition valid_date (d : Timestamp) : bool :=
  ((1 <=? month d) && (month d <=? 12)
   && (1 <=? day d) && (day d <=? days_in_month (year d) (month d)))%Z.

(** One line of the station file, columns
    agency_cd, site_no, Date, Discharge, Quality. *)
Record Row : Type := mkRow {
  agency_cd : string;
  site_no : Z;
  Date : Timestamp;
  Discharge : option Q;
  Quality : string
}.

Definition DataFrame := list Row.

Inductive Column : Type := col_site_no | col_Discharge.

(** [DataDF[c]]: a numeric column as a Series. *)
Definition getitem (c : Column) (df : DataFrame) : Series :=
  match c with
  | col_site_no => map (fun r => Some (inject_Z (site_no r))) df
  | col_Discharge => map Discharge df
  end.

(** [Series.isna().sum()], also [isnull().sum()]. *)
Definition isna_sum (s : Series) : nat := length (filter isna s).

(** [DataDF.set_index('Date')]: the Date column becomes the index; rows
    already carry their date, so the rows are unchanged. *)
Definition set_index_Date (df : DataFrame) : DataFrame := df.

Definition set_Discharge (v : option Q) (r : Row) : Row :=
  mkRow (agency_cd r) (site_no r) (Date r) v (Quality r).

(** [Discharge < 0]: False on NaN. *)
Definition negative (x : option Q) : bool :=
  match x with Some q => Qltb q 0 | None => false end.

(** [DataDF.loc[DataDF['Discharge'] < 0, 'Discharge'] = np.NaN]. *)
Definition mask_negative (df : DataFrame) : DataFrame :=
  map (fun r => if negative (Discharge r) then set_Discharge None r else r) df.

(** [DataDF.loc[startDate:endDate]] on the date index: both ends
    inclusive. *)
Definition loc_slice (df : DataFrame) (startDate endDate : Timestamp)
  : DataFrame :=
  filter (fun r => ts_leb startDate (Date r) && ts_leb (Date r) endDate) df.

(** ** Objects and references

    DataFrames are objects: a variable holds a reference, [.loc[...] = v]
    writes through it, while [set_index] and [.loc[a:b]] build a new
    object.  The store maps references to frames. *)

Definition ref := nat.
Definition Store := list DataFrame.

Definition M (A : Type) : Type := Store -> option (A * Store).

Definition ret {A} (a : A) : M A := fun st => Some (a, st).

Definition bind {A B} (m : M A) (k : A -> M B) : M B :=
  fun st => match m st with
            | Some (a, st') => k a st'
            | None => None
            end.

Definition raise {A} : M A := fun _ => None.

Notation "x <- m ;; k" := (bind m (fun x => k))
  (at level 61, m at next level, right associativity).

Definition new (df : DataFrame) : M ref :=
  fun st => Some (length st, st ++ [df]).

Definition deref (r : ref) : M DataFrame :=
  fun st => match nth_error st r with
            | Some df => Some (df, st)
            | None => None
            end.

Fixpoint update (st : Store) (r : ref) (df : DataFrame) : Store :=
  match st, r with
  | [], _ => []
  | _ :: t, O => df :: t
  | x :: t, S r' => x :: update t r' df
  end.

Definition assign (r : ref) (df : DataFrame) : M unit :=
  fun st => match nth_error st r with
            | Some _ => Some (tt, update st r df)
            | None => None
            end.

(** The files on disk, as [pd.read_csv] with the options of [ReadData]
    parses them (header skipped, comment lines dropped, dates parsed, the
    token Eqp read as NaN); [None] when the load fails. *)
Definition FileSystem := string -> option DataFrame.

Definition read_csv (fs : FileSystem) (fileName : string) : M ref :=
  match fs fileName with
  | Some df => new df
  | None => raise
  end.

Definition ReadData (fs : FileSystem) (fileName : string) : M (ref * nat) :=
  DataDF <- read_csv fs fileName ;;
  d <- deref DataDF ;;
  DataDF <- new (set_index_Date d) ;;
  d <- deref DataDF ;;
  let MissingValues := isna_sum (getitem col_Discharge d) in
  _ <- assign DataDF (mask_negative d) ;;
  ret (DataDF, MissingValues).

Definition ClipData (DataDF : ref) (startDate endDate : Timestamp)
  : M (ref * nat) :=
  d <- deref DataDF ;;
  DataDF <- new (loc_slice d startDate endDate) ;;
  d <- deref DataDF ;;
  let MissingValues := isna_sum (getitem col_Discharge d) in
  ret (DataDF, MissingValues).

(** ** Resampling

    [DataDF.resample(rule)] cuts the span of the index into consecutive
    periods and groups the rows by period.  Every period between the one
    of the earliest date and the one of the latest date is a group, also
    when no row falls in it.  A period is identified by an integer key. *)

(** 'A-SEP': years ending in September.  October to December belong to
    the period that ends in the next calendar year. *)
Definition water_year (d : Timestamp) : Z :=
  if (10 <=? month d)%Z then (year d + 1)%Z else year d.

(** 'A-SEP' labels a period with its last day. *)
Definition year_end (wy : Z) : Timestamp := mkTimestamp wy 9 30.

(** 'MS': calendar months, counted from year 0. *)
Definition month_number (d : Timestamp) : Z :=
  (year d * 12 + (month d - 1))%Z.

(** 'MS' labels a period with its first day. *)
Definition month_start (k : Z) : Timestamp :=
  mkTimestamp (k / 12)%Z (k mod 12 + 1)%Z 1.

Definition Zrange (lo hi : Z) : list Z :=
  map (fun k => (lo + Z.of_nat k)%Z) (seq 0 (Z.to_nat (hi - lo + 1))).

(** A resampler: the groups in index order, each with its label. *)
Definition Resampler := list (Timestamp * DataFrame).

(** The periods of the earliest and of the latest date of the index. *)
Definition first_period (key : Timestamp -> Z) (df : DataFrame) : option Z :=
  match map (fun r => key (Date r)) df with
  | [] => None
  | k :: ks => Some (fold_right Z.min k ks)
  end.

Definition last_period (key : Timestamp -> Z) (df : DataFrame) : option Z :=
  match map (fun r => key (Date r)) df with
  | [] => None
  | k :: ks => Some (fold_right Z.max k ks)
  end.

Definition group (key : Timestamp -> Z) (b : Z) (df : DataFrame)
  : DataFrame :=
  filter (fun r => (key (Date r) =? b)%Z) df.

(** Before cutting, the resampler puts the rows in date order when the
    index is not monotonic: a stable sort, so rows of the same date keep
    their order. *)
Fixpoint insert_row (r : Row) (l : DataFrame) : DataFrame :=
  match l with
  | [] => [r]
  | y :: t =>
      if ts_leb (Date r) (Date y) then r :: l else y :: insert_row r t
  end.

Definition sort_index (df : DataFrame) : DataFrame :=
  fold_right insert_row [] df.

Definition resample_by (key : Timestamp -> Z) (label : Z -> Timestamp)
  (df : DataFrame) : Resampler :=
  match first_period key df, last_period key df with
  | Some lo, Some hi =>
      map (fun b => (label b, group key b (sort_index df))) (Zrange lo hi)
  | _, _ => []
  end.

Definition resample_A_SEP : DataFrame -> Resampler :=
  resample_by water_year year_end.

Definition resample_MS : DataFrame -> Resampler :=
  resample_by month_number month_start.

(** A column indexed by period label. *)
Definition IndexedSeries := list (Timestamp * np_float).

(** [WYData[c]]: the groups of one column. *)
Definition SeriesGroupBy := list (Timestamp * Series).

Definition select (c : Column) (g : Resampler) : SeriesGroupBy :=
  map (fun p => (fst p, getitem c (snd p))) g.

(** [WYData[c].mean()], [.apply(f)] and the like: one value per group,
    empty groups included. *)
Definition apply (f : Series -> np_float) (g : SeriesGroupBy)
  : IndexedSeries :=
  map (fun p => (fst p, f (snd p))) g.

(** [MoData.apply({c: f, ...})]: a frame with one column per key of the
    dict, each obtained by aggregating the selected column. *)
Definition apply_dict (d : list (Column * (Series -> np_float)))
  (g : Resampler) : list (Column * IndexedSeries) :=
  map (fun cf => (fst cf, apply (snd cf) (select (fst cf) g))) d.

Definition index (s : IndexedSeries) : list Timestamp := map fst s.

(** Elementwise arithmetic of two columns with the same index. *)
Definition zip_with (op : np_float -> np_float -> np_float)
  (a b : IndexedSeries) : IndexedSeries :=
  map (fun p => (fst (fst p), op (snd (fst p)) (snd (snd p)))) (combine a b).

Definition scale (a : IndexedSeries) (k : Q) : IndexedSeries :=
  map (fun p => (fst p, np_mul (snd p) (fin k))) a.

(** [Table[col] = value]: the value is aligned on the index of the table;
    a label absent from the value gives NaN. *)
Definition at_label (t : Timestamp) (s : IndexedSeries) : np_float :=
  match find (fun p => ts_eqb (fst p) t) s with
  | Some p => snd p
  | None => nan
  end.

(** Assigning a one-column frame to a column assigns that column. *)
Definition at_label_frame (t : Timestamp)
  (f : list (Column * IndexedSeries)) : np_float :=
  match f with
  | [] => nan
  | c :: _ => at_label t (snd c)
  end.

Definition of_count (f : Series -> nat) (s : Series) : np_float :=
  fin (Qof_nat (f s)).

Record AnnualRow : Type := mkAnnualRow {
  a_index : Timestamp;
  a_site_no : np_float;
  a_Mean_Flow : np_float;
  a_Peak_Flow : np_float;
  a_Median_Flow : np_float;
  a_Coeff_Var : np_float;
  a_Skew : np_float;
  a_Tqmean : np_float;
  a_RB_Index : np_float;
  a_7Q : np_float;
  a_3xMedian : np_float
}.

Record MonthlyRow : Type := mkMonthlyRow {
  m_index : Timestamp;
  m_site_no : np_float;
  m_Mean_Flow : np_float;
  m_Coeff_Var : np_float;
  m_Tqmean : np_float;
  m_RB_Index : np_float
}.

Section Aggregator.

Variable sqrtQ : Q -> Q.

Definition GetAnnualStatistics (DataDF : DataFrame) : list AnnualRow :=
  let annualIndex :=
    index (apply mean (select col_Discharge (resample_A_SEP DataDF))) in
  let WYData := resample_A_SEP DataDF in
  let Qg := select col_Discharge WYData in
  map (fun t =>
    {| a_index := t;
       a_site_no := at_label t (apply min (select col_site_no WYData));
       a_Mean_Flow := at_label t (apply mean Qg);
       a_Peak_Flow := at_label t (apply max Qg);
       a_Median_Flow := at_label t (apply median Qg);
       a_Coeff_Var :=
         at_label t
           (scale (zip_with np_div (apply (std sqrtQ) Qg) (apply mean Qg)) 100);
       a_Skew := at_label t (apply (skew sqrtQ) Qg);
       a_Tqmean := at_label t (apply (fun x => CalcTqmean x) Qg);
       a_RB_Index := at_label t (apply (fun x => CalcRBindex x) Qg);
       a_7Q := at_label t (apply (fun x => Calc7Q x) Qg);
       a_3xMedian :=
         at_label t (apply (of_count (fun x => CalcExceed3TimesMedian x)) Qg)
    |}) annualIndex.

Definition GetMonthlyStatistics (DataDF : DataFrame) : list MonthlyRow :=
  let monthlyIndex :=
    index (apply mean (select col_Discharge (resample_MS DataDF))) in
  let MoData := resample_MS DataDF in
  let Qg := select col_Discharge MoData in
  map (fun t =>
    {| m_index := t;
       m_site_no := at_label t (apply min (select col_site_no MoData));
       m_Mean_Flow := at_label t (apply mean Qg);
       m_Coeff_Var :=
         at_label t
           (scale (zip_with np_div (apply (std sqrtQ) Qg) (apply mean Qg)) 100);
       m_Tqmean := at_label t (apply (fun x => CalcTqmean x) Qg);
       m_RB_Index :=
         at_label_frame t
           (apply_dict [(col_Discharge, fun x => CalcRBindex x)] MoData)
    |}) monthlyIndex.

End Aggregator.

(** ** Predicates used in the statements *)

Definition nonneg (l : list Q) : Prop := forall x, In x l -> 0 <= x.

Definition constant (l : list Q) : Prop :=
  forall x y, In x l -> In y l -> x == y.

(** The R-B index of [l] is a number, not negative, and zero exactly for a
    constant sequence. *)
Definition RBindex_nonneg_zero_iff_constant (l : list Q) : Prop :=
  exists r, CalcRBindex (map Some l) = fin r /\
            0 <= r /\ (r == 0 <-> constant l).

(** The [w] entries of [s] from position [i] on are all present. *)
Definition run_present (s : Series) (i w : nat) : Prop :=
  forall j, (i <= j < i + w)%nat -> exists q, nth_error s j = Some (Some q).

(** Some [w] consecutive entries of [s] are all present. *)
Definition has_run (s : Series) (w : nat) : Prop :=
  exists i, (i + w <= length s)%nat /\ run_present s i w.

(** The index is strictly increasing: dates unique and in order. *)
Fixpoint ascending (df : DataFrame) : bool :=
  match df with
  | [] => true
  | r :: t =>
      match t with
      | [] => true
      | r' :: _ => ts_ltb (Date r) (Date r') && ascending t
      end
  end.

(** The count returned by [ReadData] is the number of missing discharge
    entries of the frame it returns. *)
Definition count_of_returned_frame (fs : FileSystem) (fileName : string)
  (st : Store) : Prop :=
  match ReadData fs fileName st with
  | Some ((DataDF, MissingValues), st') =>
      exists d, nth_error st' DataDF = Some d /\
                MissingValues = isna_sum (getitem col_Discharge d)
  | None => True
  end.

(** ** Summary rows, as the specification words them

    One row per period: every kernel applied to the discharge values of
    the rows of the period. *)

Section Summary.

Variable sqrtQ : Q -> Q.

Definition annual_summary (t : Timestamp) (g : DataFrame) : AnnualRow :=
  let q := getitem col_Discharge g in
  {| a_index := t;
     a_site_no := min (getitem col_site_no g);
     a_Mean_Flow := mean q;
     a_Peak_Flow := max q;
     a_Median_Flow := median q;
     a_Coeff_Var := np_mul (np_div (std sqrtQ q) (mean q)) (fin 100);
     a_Skew := skew sqrtQ q;
     a_Tqmean := CalcTqmean q;
     a_RB_Index := CalcRBindex q;
     a_7Q := Calc7Q q;
     a_3xMedian := fin (Qof_nat (CalcExceed3TimesMedian q)) |}.

Definition monthly_summary (t : Timestamp) (g : DataFrame) : MonthlyRow :=
  let q := getitem col_Discharge g in
  {| m_index := t;
     m_site_no := min (getitem col_site_no g);
     m_Mean_Flow := mean q;
     m_Coeff_Var := np_mul (np_div (std sqrtQ q) (mean q)) (fin 100);
     m_Tqmean := CalcTqmean q;
     m_RB_Index := CalcRBindex q |}.

End Summary.

(** Every discharge entry of the group is missing. *)
Definition all_missing (g : DataFrame) : Prop :=
  forall r, In r g -> Discharge r = None.

(** Every metric column of an annual row is NaN. *)
Definition annual_metrics_nan (row : AnnualRow) : Prop :=
  a_Mean_Flow row = nan /\ a_Peak_Flow row = nan /\
  a_Median_Flow row = nan /\ a_Coeff_Var row = nan /\
  a_Skew row = nan /\ a_Tqmean row = nan /\ a_RB_Index row = nan /\
  a_7Q row = nan /\ a_3xMedian row = nan.

(** The water year [wy] of [df], when all its discharges are missing, has
    a row, and every metric column of that row is NaN. *)
Definition all_missing_year_all_nan (sqrtQ : Q -> Q) (df : DataFrame)
  (wy : Z) : Prop :=
  all_missing (group water_year wy df) ->
  exists row, In row (GetAnnualStatistics sqrtQ df) /\
              a_index row = year_end wy /\ annual_metrics_nan row.

(** [CalcRBindex] applied to the discharge values of every group. *)
Definition RBindex_per_bucket (g : Resampler) : IndexedSeries :=
  map (fun p => (fst p, CalcRBindex (getitem col_Discharge (snd p)))) g.

(** First day of the water year [wy]: October 1 of the year before. *)
Definition year_begin (wy : Z) : Timestamp := mkTimestamp (wy - 1) 10 1.

(** ** Sample data *)

Definition sample_row (y m d : Z) (q : option Q) : Row :=
  mkRow "USGS" 3335000 (mkTimestamp y m d) q "A".

(** Three days of one station: a negative reading, a missing one and a
    regular one. *)
Definition sample_frame : DataFrame :=
  [ sample_row 1970 9 29 (Some (-1));
    sample_row 1970 9 30 None;
    sample_row 1970 10 1 (Some 4) ].

Definition sample_fs : FileSystem :=
  fun name => if String.eqb name "station.txt" then Some sample_frame
              else None.

(** Water years 1970 to 1972; nothing was recorded in water year 1971. *)
Definition sample_gap : DataFrame :=
  [ sample_row 1970 9 30 (Some 2);
    sample_row 1970 10 1 None;
    sample_row 1971 3 1 None;
    sample_row 1971 10 1 (Some 3) ].

(** ** Averages

    [DataFrame.mean()] and [groupby(...).mean()] average every column,
    skipping NaN; a column with nothing left gives NaN. *)

Definition np_add (a b : np_float) : np_float :=
  match a, b with
  | nan, _ | _, nan => nan
  | inf s, inf t => if Bool.eqb s t then inf s else nan
  | inf s, fin _ | fin _, inf s => inf s
  | fin p, fin q => fin (p + q)
  end.

Definition notna (x : np_float) : bool :=
  match x with nan => false | _ => true end.

Definition np_sum (l : list np_float) : np_float :=
  fold_right np_add (fin 0) l.

Definition nanmean (col : list np_float) : np_float :=
  match filter notna col with
  | [] => nan
  | x :: t => np_div (np_sum (x :: t)) (fin (Qof_nat (length (x :: t))))
  end.

(** The columns of the annual table, in the order of [colNames]. *)
Definition annual_columns : list (string * (AnnualRow -> np_float)) :=
  [ ("site_no", a_site_no); ("Mean Flow", a_Mean_Flow);
    ("Peak Flow", a_Peak_Flow); ("Median Flow", a_Median_Flow);
    ("Coeff Var", a_Coeff_Var); ("Skew", a_Skew); ("Tqmean", a_Tqmean);
    ("R-B Index", a_RB_Index); ("7Q", a_7Q); ("3xMedian", a_3xMedian) ]%string.

(** [WYDataDF.mean()]: a Series indexed by column name. *)
Definition GetAnnualAverages (WYDataDF : list AnnualRow)
  : list (string * np_float) :=
  let AnnualAverages :=
    map (fun c => (fst c, nanmean (map (snd c) WYDataDF))) annual_columns in
  AnnualAverages.

(** [Averages[name]]. *)
Definition loc_name (name : string) (s : list (string * np_float))
  : option np_float :=
  option_map snd (find (fun p => String.eqb (fst p) name) s).

Record MonthlyAverageRow : Type := mkMonthlyAverageRow {
  ma_month : Z;
  ma_site_no : np_float;
  ma_Mean_Flow : np_float;
  ma_Coeff_Var : np_float;
  ma_Tqmean : np_float;
  ma_RB_Index : np_float
}.

(** The keys of a groupby: each distinct key once, in increasing order. *)
Fixpoint insert_key (x : Z) (l : list Z) : list Z :=
  match l with
  | [] => [x]
  | y :: t =>
      if (x <? y)%Z then x :: l
      else if (x =? y)%Z then l
      else y :: insert_key x t
  end.

Definition group_keys (l : list Z) : list Z := fold_right insert_key [] l.

(** [MoDataDF.groupby(MoDataDF.index.month).mean()]. *)
Definition GetMonthlyAverages (MoDataDF : list MonthlyRow)
  : list MonthlyAverageRow :=
  let MonthlyAverages :=
    map (fun m =>
           let g := filter (fun r => (month (m_index r) =? m)%Z) MoDataDF in
           {| ma_month := m;
              ma_site_no := nanmean (map m_site_no g);
              ma_Mean_Flow := nanmean (map m_Mean_Flow g);
              ma_Coeff_Var := nanmean (map m_Coeff_Var g);
              ma_Tqmean := nanmean (map m_Tqmean g);
              ma_RB_Index := nanmean (map m_RB_Index g) |})
        (group_keys (map (fun r => month (m_index r)) MoDataDF)) in
  MonthlyAverages.

(** ** The script

    The body of the loop over the station files: load, clip to the common
    period, then the four tables. *)

Definition clip_start : Timestamp := mkTimestamp 1969 10 1.
Definition clip_end : Timestamp := mkTimestamp 2019 9 30.

Record StationTables : Type := mkStationTables {
  t_DataDF : ref;
  t_MissingValues : nat;
  t_WYDataDF : list AnnualRow;
  t_AnnualAverages : list (string * np_float);
  t_MoDataDF : list MonthlyRow;
  t_MonthlyAverages : list MonthlyAverageRow
}.

Section Script.

Variable sqrtQ : Q -> Q.

Definition process_station (fs : FileSystem) (fileName : string)
  : M StationTables :=
  r <- ReadData fs fileName ;;
  r <- ClipData (fst r) clip_start clip_end ;;
  d <- deref (fst r) ;;
  let WYDataDF := GetAnnualStatistics sqrtQ d in
  let AnnualAverages := GetAnnualAverages WYDataDF in
  let MoDataDF := GetMonthlyStatistics sqrtQ d in
  let MonthlyAverages := GetMonthlyAverages MoDataDF in
  ret (mkStationTables (fst r) (snd r) WYDataDF AnnualAverages
                       MoDataDF MonthlyAverages).

End Script.

(** ** More predicates *)

(** A result that is NaN or a number between [a] and [b]. *)
Definition nan_or_between (a b : Q) (x : np_float) : Prop :=
  match x with
  | nan => True
  | inf _ => False
  | fin q => a <= q <= b
  end.



(** Twelve months starting with October 1970, one observation each: the
    day of the month is used as discharge. *)
Definition sample_year : DataFrame :=
  map (fun k => let t := month_start (23649 + Z.of_nat k) in
                mkRow "USGS" 3335000
                      (mkTimestamp (year t) (month t) 15)
                      (Some (inject_Z (month t))) "A")
      (seq 0 12).

(** The date [d] falls in the calendar month that starts on [t]. *)
Definition same_month (t d : Timestamp) : bool :=
  ((year d =? year t) && (month d =? month t))%Z.

(** A result that is NaN or a number that is not negative. *)
Definition nan_or_nonneg (x : np_float) : Prop :=
  match x with
  | nan => True
  | inf _ => False
  | fin q => 0 <= q
  end.

(** The rows of [raw] dated within the common period of the script. *)
Definition in_period (raw : DataFrame) : DataFrame :=
  loc_slice raw clip_start clip_end.

(** ** CalcTqmean on binary64 numbers

    [Qvalues.mean()] is computed in binary64 and every entry is compared
    with that rounded mean.  Entries are primitive binary64 floats, a
    missing entry is a NaN.  The order in which the library adds the
    entries depends on the length of the series and on the reduction
    routine in use, so the sum is a parameter; [add_in_order] adds from the
    first entry to the last, which is what every routine does on a series
    of fewer than eight entries.  The quotient of the two counts is kept
    exact: rounding it moves it neither out of the interval from 0 to 1
    nor onto 0. *)

Module B64.

Definition float := PrimFloat.float.

Definition Series := list float.

Definition of_Z (z : Z) : float := PrimFloat.of_uint63 (Uint63.of_Z z).

Definition of_nat (n : nat) : float := of_Z (Z.of_nat n).

(** The binary64 number nearest to [n / d], as a decimal literal
    denotes it. *)
Definition literal (n d : Z) : float := PrimFloat.div (of_Z n) (of_Z d).

Definition isna (x : float) : bool := PrimFloat.is_nan x.

Definition dropna (s : Series) : list float :=
  filter (fun x => negb (isna x)) s.

Definition add_in_order (v : list float) : float :=
  fold_left PrimFloat.add v PrimFloat.zero.

Section Summation.

Variable add_reduce : list float -> float.

(** [Series.mean()]: NaN skipped, NaN when nothing is left. *)
Definition mean (s : Series) : float :=
  match dropna s with
  | [] => PrimFloat.nan
  | x :: t => PrimFloat.div (add_reduce (x :: t)) (of_nat (length (x :: t)))
  end.

(** [(Qvalues > m).sum()]. *)
Definition count_gt (s : Series) (m : float) : nat :=
  length (filter (fun x => PrimFloat.ltb m x) s).

Definition CalcTqmean (Qvalues : Series) : np_float :=
  let vals_gt_mean := count_gt Qvalues (mean Qvalues) in
  np_div (fin (Qof_nat vals_gt_mean)) (fin (Qof_nat (length Qvalues))).

End Summation.

(** The rational number a finite binary64 float stands for. *)
Definition to_Q (x : float) : Q :=
  match FloatOps.Prim2SF x with
  | SpecFloat.S754_finite s m e =>
      (if s then - inject_Z (Zpos m) else inject_Z (Zpos m)) * Qpower 2 e
  | _ => 0
  end.

(** The mean of the values of the sequence, without rounding. *)
Definition exact_mean (l : list float) : Q :=
  Qsum (map to_Q l) / Qof_nat (length l).

(** [CalcTqmean] of [l] is a number from 0 to 1, and it is 0 exactly when
    no value of [l] is above the mean of [l]. *)
Definition zero_iff_none_above_mean (l : list float) : Prop :=
  exists t, CalcTqmean add_in_order l = fin t /\
            0 <= t <= 1 /\
            (t == 0 <-> forall x, In x l -> ~ exact_mean l < to_Q x).

End B64.

(** Three days of 0.7. *)
Definition sample_constant : B64.Series :=
  [B64.literal 7 10; B64.literal 7 10; B64.literal 7 10].

(** * Properties *)

(** ** Rational comparisons *)

Lemma Qltb_lt (x y : Q) : Qltb x y = true <-> x < y.
Proof.
  unfold Qltb. rewrite negb_true_iff. split; intro H.
  - apply Qnot_le_lt. intro Hle. apply Qle_bool_iff in Hle. congruence.
  - destruct (Qle_bool y x) eqn:E; [|reflexivity].
    apply Qle_bool_iff in E. exfalso. apply (Qlt_not_le _ _ H E).
Qed.

Lemma Qltb_ge (x y : Q) : Qltb x y = false <-> y <= x.
Proof.
  unfold Qltb. rewrite negb_false_iff. apply Qle_bool_iff.
Qed.

Lemma Qeqb_eq (x y : Q) : Qeqb x y = true <-> x == y.
Proof. apply Qeq_bool_iff. Qed.

Lemma Qeqb_neq (x y : Q) : Qeqb x y = false <-> ~ x == y.
Proof.
  rewrite <- Qeqb_eq. destruct (Qeqb x y); split; intro H; congruence.
Qed.

Lemma Qof_nat_nonneg (n : nat) : 0 <= Qof_nat n.
Proof.
  unfold Qof_nat, Qle. simpl. lia.
Qed.

Lemma Qof_nat_le (n m : nat) : (n <= m)%nat -> Qof_nat n <= Qof_nat m.
Proof.
  intro H. unfold Qof_nat. rewrite <- Zle_Qle. lia.
Qed.

Lemma Qof_nat_zero (n : nat) : Qof_nat n == 0 <-> n = O.
Proof.
  unfold Qof_nat, Qeq. simpl. lia.
Qed.

Lemma Qof_nat_pos (n : nat) : (0 < n)%nat -> 0 < Qof_nat n.
Proof.
  intro H. unfold Qof_nat, Qlt. simpl. lia.
Qed.

(** Division of a finite number by a finite non-zero number is finite. *)
Lemma np_div_fin (p q : Q) : ~ q == 0 -> np_div (fin p) (fin q) = fin (p / q).
Proof.
  intro H. simpl. apply Qeqb_neq in H. rewrite H. reflexivity.
Qed.

Lemma np_div_zero_zero (p q : Q) :
  p == 0 -> q == 0 -> np_div (fin p) (fin q) = nan.
Proof.
  intros Hp Hq. simpl.
  apply Qeqb_eq in Hp, Hq. rewrite Hp, Hq. reflexivity.
Qed.

Lemma Qdiv_nonneg (p q : Q) : 0 <= p -> 0 < q -> 0 <= p / q.
Proof.
  intros Hp Hq. apply Qle_shift_div_l; [assumption|]. lra.
Qed.

Lemma Qdiv_zero_iff (p q : Q) : ~ q == 0 -> (p / q == 0 <-> p == 0).
Proof.
  intro Hq. split; intro H.
  - assert (E : p == (p / q) * q) by (field; assumption).
    rewrite E, H. ring.
  - rewrite H. field. assumption.
Qed.

(** ** Series *)

Lemma dropna_map_Some (l : list Q) : dropna (map Some l) = l.
Proof.
  induction l as [|x t IH]; simpl; [reflexivity|]. now rewrite IH.
Qed.

Lemma count_gt_le_length (s : Series) (m : np_float) :
  (count_gt s m <= length s)%nat.
Proof.
  unfold count_gt. apply filter_length_le.
Qed.

Lemma count_gt_zero (s : Series) (m : np_float) :
  count_gt s m = O <-> forall x, In x s -> np_gt x m = false.
Proof.
  unfold count_gt. induction s as [|x t IH]; simpl.
  - split; [intros _ y []|reflexivity].
  - destruct (np_gt x m) eqn:E; simpl.
    + split; [discriminate|]. intro H.
      specialize (H x (or_introl eq_refl)). congruence.
    + rewrite IH. split.
      * intros H y [<-|Hy]; auto.
      * intros H y Hy. apply H. now right.
Qed.

(** ** CalcTqmean *)

Lemma filter_length_zero {A} (f : A -> bool) (l : list A) :
  length (filter f l) = O <-> forall x, In x l -> f x = false.
Proof.
  induction l as [|x t IH]; simpl.
  - split; [intros _ y []|reflexivity].
  - destruct (f x) eqn:E; simpl.
    + split; [discriminate|]. intro H.
      specialize (H x (or_introl eq_refl)). congruence.
    + rewrite IH. split.
      * intros H y [<-|Hy]; auto.
      * intros H y Hy. apply H. now right.
Qed.

(** C3 (as amended). For every non-empty discharge sequence, whatever
    the order in which the library adds the entries, [CalcTqmean] returns
    a value [t] with [0 <= t <= 1], and [t] is 0 exactly when no entry is
    strictly greater than the mean as [Qvalues.mean()] computes it in
    binary64, the rounded sum of the entries divided by their number. *)
Theorem CalcTqmean_zero_iff_none_above_computed_mean
  (add_reduce : list B64.float -> B64.float) (l : B64.Series)
  (Hne : l <> []) :
  exists t,
    B64.CalcTqmean add_reduce l = fin t /\
    0 <= t <= 1 /\
    (t == 0 <->
     forall x, In x l ->
               PrimFloat.ltb (B64.mean add_reduce l) x = false) /\
    (B64.dropna l <> [] ->
     B64.mean add_reduce l =
     PrimFloat.div (add_reduce (B64.dropna l))
                   (B64.of_nat (length (B64.dropna l)))).
Proof.
  assert (Hlen : (0 < length l)%nat)
    by (destruct l; [congruence|simpl; lia]).
  assert (Hn : ~ Qof_nat (length l) == 0) by (rewrite Qof_nat_zero; lia).
  pose proof (Qof_nat_pos _ Hlen) as Hpos.
  exists (Qof_nat (B64.count_gt l (B64.mean add_reduce l))
          / Qof_nat (length l)).
  split; [unfold B64.CalcTqmean; cbv zeta; now apply np_div_fin|].
  split; [split|split].
  - apply Qdiv_nonneg; [apply Qof_nat_nonneg|exact Hpos].
  - apply Qle_shift_div_r; [exact Hpos|].
    rewrite Qmult_1_l. apply Qof_nat_le. unfold B64.count_gt.
    apply filter_length_le.
  - rewrite (Qdiv_zero_iff _ _ Hn), Qof_nat_zero. unfold B64.count_gt.
    apply filter_length_zero.
  - intro Hd. unfold B64.mean.
    destruct (B64.dropna l); [congruence|reflexivity].
Qed.

Lemma CalcTqmean_zero_iff_none_above_computed_mean_witness :
  exists t,
    B64.CalcTqmean B64.add_in_order sample_constant = fin t /\
    0 <= t <= 1 /\
    (t == 0 <->
     forall x, In x sample_constant ->
       PrimFloat.ltb (B64.mean B64.add_in_order sample_constant) x = false)
    /\
    (B64.dropna sample_constant <> [] ->
     B64.mean B64.add_in_order sample_constant =
     PrimFloat.div (B64.add_in_order (B64.dropna sample_constant))
                   (B64.of_nat (length (B64.dropna sample_constant)))).
Proof.
  apply (CalcTqmean_zero_iff_none_above_computed_mean B64.add_in_order
           sample_constant).
  discriminate.
Defined.

(** C3, counterexample. On three days of 0.7 the sum 0.7 + 0.7 + 0.7 is
    rounded down and the computed mean is 0.6999999999999998: every day is
    above it and [CalcTqmean] is 1, although no day is above the mean of
    the three values, which is 0.7. *)
Lemma CalcTqmean_constant_series_is_one :
  (forall x, In x sample_constant ->
             ~ B64.exact_mean sample_constant < B64.to_Q x) /\
  feq (B64.CalcTqmean B64.add_in_order sample_constant) (fin 1) /\
  ~ B64.zero_iff_none_above_mean sample_constant.
Proof.
  assert (Hnone : forall x, In x sample_constant ->
                    ~ B64.exact_mean sample_constant < B64.to_Q x).
  { intros x Hx. simpl in Hx.
    repeat (destruct Hx as [<-|Hx]; [vm_compute; discriminate|]).
    destruct Hx. }
  split; [exact Hnone|]. split; [vm_compute; reflexivity|].
  intros [t [Ht [_ Hiff]]].
  vm_compute in Ht. injection Ht as <-.
  apply (proj2 Hiff) in Hnone. vm_compute in Hnone. discriminate.
Qed.

Example sample_constant_mean :
  FloatOps.Prim2SF (B64.literal 7 10) =
    SpecFloat.S754_finite false 6305039478318694 (-53) /\
  FloatOps.Prim2SF (B64.mean B64.add_in_order sample_constant) =
    SpecFloat.S754_finite false 6305039478318693 (-53).
Proof. split; vm_compute; reflexivity. Qed.

(** ** CalcRBindex *)

Lemma Qsum_nonneg (l : list Q) : nonneg l -> 0 <= Qsum l.
Proof.
  induction l as [|x t IH]; intro H; simpl; [lra|].
  assert (0 <= x) by (apply H; now left).
  assert (0 <= Qsum t) by (apply IH; intros y Hy; apply H; now right).
  lra.
Qed.

Lemma Qsum_nonneg_zero (l : list Q) :
  nonneg l -> Qsum l == 0 -> forall x, In x l -> x == 0.
Proof.
  induction l as [|x t IH]; intros Hnn Hs y Hy; [destruct Hy|].
  simpl in Hs.
  assert (Hx : 0 <= x) by (apply Hnn; now left).
  assert (Ht : nonneg t) by (intros z Hz; apply Hnn; now right).
  pose proof (Qsum_nonneg t Ht) as Hsum.
  destruct Hy as [<-|Hy]; [lra|].
  apply IH; [assumption|lra|assumption].
Qed.

Lemma Qabs_zero_iff (x : Q) : Qabs x == 0 <-> x == 0.
Proof.
  split; intro H.
  - destruct (Qlt_le_dec x 0) as [Hlt|Hge].
    + rewrite Qabs_neg in H; lra.
    + rewrite Qabs_pos in H; lra.
  - rewrite H. reflexivity.
Qed.

Lemma sum_abs_nonneg (s : Series) : 0 <= sum (abs s).
Proof.
  unfold sum, abs. induction s as [|[x|] t IH]; simpl; [lra| |exact IH].
  pose proof (Qabs_nonneg x). lra.
Qed.

Lemma sum_abs_cons_None (s : Series) : sum (abs (None :: s)) = sum (abs s).
Proof. reflexivity. Qed.

Lemma sum_abs_cons_Some (x : Q) (s : Series) :
  sum (abs (Some x :: s)) = Qabs x + sum (abs s).
Proof. reflexivity. Qed.

Lemma Qplus_nonneg_zero (a b : Q) :
  0 <= a -> 0 <= b -> (a + b == 0 <-> a == 0 /\ b == 0).
Proof.
  intros Ha Hb. split; [intro H; split; lra|intros [Ea Eb]; lra].
Qed.

(** The path length after a known previous value vanishes exactly when
    every later value equals it. *)
Lemma pathlength_zero_iff (t : list Q) : forall p,
  sum (abs (diff_from (Some p) (map Some t))) == 0 <->
  (forall y, In y t -> y == p).
Proof.
  induction t as [|y t IH]; intro p.
  - simpl. split; [intros _ z []|reflexivity].
  - cbn [map diff_from sub_opt]. rewrite sum_abs_cons_Some.
    rewrite Qplus_nonneg_zero
      by (apply Qabs_nonneg || apply sum_abs_nonneg).
    rewrite Qabs_zero_iff, IH.
    assert (Hyp : y - p == 0 <-> y == p) by (split; intro; lra).
    rewrite Hyp. split.
    + intros [Hy Ht] z [<-|Hz]; [assumption|].
      rewrite (Ht z Hz). assumption.
    + intro H. assert (Hy : y == p) by (apply H; now left).
      split; [assumption|].
      intros z Hz. rewrite Hy. apply H. now right.
Qed.

Lemma constant_cons (x : Q) (t : list Q) :
  constant (x :: t) <-> (forall y, In y t -> y == x).
Proof.
  split.
  - intros H y Hy. apply H; [now right|now left].
  - intros H a b Ha Hb.
    assert (Hx : forall z, In z (x :: t) -> z == x).
    { intros z [<-|Hz]; [reflexivity|now apply H]. }
    rewrite (Hx a Ha), (Hx b Hb). reflexivity.
Qed.

Lemma CalcRBindex_map_Some (x : Q) (t : list Q) :
  CalcRBindex (map Some (x :: t)) =
  np_div (fin (sum (abs (diff_from (Some x) (map Some t)))))
         (fin (Qsum (x :: t))).
Proof.
  unfold CalcRBindex, diff. cbv zeta.
  unfold sum at 2. rewrite dropna_map_Some. reflexivity.
Qed.

(** C4 (as amended). For every non-negative discharge sequence whose total
    is positive, [CalcRBindex] returns a number that is greater than or
    equal to 0, and it returns 0 if and only if the sequence is constant. *)
Theorem CalcRBindex_nonneg_positive_total (l : list Q) :
  nonneg l -> 0 < Qsum l -> RBindex_nonneg_zero_iff_constant l.
Proof.
  intros Hnn Hpos. destruct l as [|x t]; [simpl in Hpos; lra|].
  assert (Hq : ~ Qsum (x :: t) == 0) by lra.
  exists (sum (abs (diff_from (Some x) (map Some t))) / Qsum (x :: t)).
  split; [rewrite CalcRBindex_map_Some; now apply np_div_fin|].
  split.
  - apply Qdiv_nonneg; [apply sum_abs_nonneg|assumption].
  - rewrite (Qdiv_zero_iff _ _ Hq), pathlength_zero_iff, constant_cons.
    reflexivity.
Qed.

Lemma CalcRBindex_nonneg_positive_total_witness :
  nonneg [2; 2; 5] /\ 0 < Qsum [2; 2; 5] /\
  RBindex_nonneg_zero_iff_constant [2; 2; 5].
Proof.
  assert (Hnn : nonneg [2; 2; 5]).
  { intros x [<-|[<-|[<-|[]]]]; discriminate. }
  assert (Hpos : 0 < Qsum [2; 2; 5]) by reflexivity.
  split; [exact Hnn|]. split; [exact Hpos|].
  exact (CalcRBindex_nonneg_positive_total [2; 2; 5] Hnn Hpos).
Defined.

(** C4, counterexample. The sequence 0, 0 is non-negative and constant,
    but its R-B index is 0/0 = NaN: neither a value greater than or equal
    to 0, nor 0. *)
Lemma CalcRBindex_all_zero_not_zero :
  nonneg [0; 0] /\ constant [0; 0] /\
  CalcRBindex (map Some [0; 0]) = nan /\
  ~ RBindex_nonneg_zero_iff_constant [0; 0].
Proof.
  split; [intros x [<-|[<-|[]]]; discriminate|].
  split; [intros x y [<-|[<-|[]]] [<-|[<-|[]]]; reflexivity|].
  split; [reflexivity|].
  intros [r [H _]]. vm_compute in H. discriminate.
Qed.

Lemma pathlength_all_zero (s : Series) :
  (forall x, In x (dropna s) -> x == 0) ->
  forall prev,
    match prev with Some p => p == 0 | None => True end ->
    sum (abs (diff_from prev s)) == 0.
Proof.
  induction s as [|x t IH]; intros Hz prev Hp; [reflexivity|].
  cbn [diff_from]. destruct x as [a|].
  - assert (Ha : a == 0) by (apply Hz; now left).
    assert (Ht : sum (abs (diff_from (Some a) t)) == 0).
    { apply IH; [|exact Ha]. intros y Hy. apply Hz. now right. }
    destruct prev as [p|]; cbn [sub_opt].
    + rewrite sum_abs_cons_Some, Ht.
      assert (E : Qabs (a - p) == 0) by (apply Qabs_zero_iff; lra).
      rewrite E. reflexivity.
    + rewrite sum_abs_cons_None. exact Ht.
  - assert (Ht : sum (abs (diff_from None t)) == 0).
    { apply IH; [|exact I]. exact Hz. }
    destruct prev; cbn [sub_opt]; rewrite sum_abs_cons_None; exact Ht.
Qed.

(** C7. When the total of a discharge sequence is zero, [CalcRBindex]
    does not fault: the division yields a value that is not a number.  For
    discharge values as the loader leaves them (none negative, some
    possibly missing) that value is NaN. *)
Theorem CalcRBindex_zero_total (s : Series) :
  sum s == 0 ->
  is_finite (CalcRBindex s) = false /\
  (nonneg (dropna s) -> CalcRBindex s = nan).
Proof.
  intro Hs. split.
  - unfold CalcRBindex. cbv zeta. simpl.
    apply Qeqb_eq in Hs. rewrite Hs.
    destruct (Qeqb (sum (abs (diff s))) 0); reflexivity.
  - intro Hnn. unfold CalcRBindex. cbv zeta.
    apply np_div_zero_zero; [|exact Hs].
    apply pathlength_all_zero; [|exact I].
    apply Qsum_nonneg_zero; assumption.
Qed.

Lemma CalcRBindex_zero_total_witness :
  sum [Some 0; None; Some 0] == 0 /\
  is_finite (CalcRBindex [Some 0; None; Some 0]) = false /\
  CalcRBindex [Some 0; None; Some 0] = nan.
Proof.
  split; [reflexivity|].
  destruct (CalcRBindex_zero_total [Some 0; None; Some 0]) as [H1 H2];
    [reflexivity|].
  split; [exact H1|]. apply H2.
  intros x [<-|[<-|[]]]; discriminate.
Defined.

(** ** Rolling windows and Calc7Q *)

Lemma In_dropna (s : Series) (q : Q) : In q (dropna s) <-> In (Some q) s.
Proof.
  induction s as [|[x|] t IH]; simpl.
  - tauto.
  - rewrite IH. split; intros [H|H]; auto; left; congruence.
  - rewrite IH. split; [auto|]. intros [H|H]; [discriminate|assumption].
Qed.

Lemma count_le_length (s : Series) : (count s <= length s)%nat.
Proof.
  unfold count. induction s as [|[x|] t IH]; simpl; lia.
Qed.

Lemma count_full_iff (s : Series) : count s = length s <-> ~ In None s.
Proof.
  unfold count. induction s as [|[x|] t IH]; simpl.
  - tauto.
  - split.
    + intros H [E|Hin]; [discriminate|]. apply IH; [lia|assumption].
    + intro H. f_equal. apply IH. tauto.
  - pose proof (count_le_length t) as Hle. unfold count in Hle.
    split; [lia|]. intro H. exfalso. apply H. now left.
Qed.

Lemma min_all_missing (s : Series) :
  (forall x, In x s -> x = None) -> min s = nan.
Proof.
  intro H. unfold min. destruct (dropna s) as [|q t] eqn:E; [reflexivity|].
  assert (Hq : In (Some q) s) by (apply In_dropna; rewrite E; now left).
  apply H in Hq. discriminate.
Qed.

Lemma min_some_present (s : Series) (q : Q) :
  In (Some q) s -> exists m, min s = fin m /\ In (Some m) s.
Proof.
  intro H. apply In_dropna in H. unfold min.
  destruct (dropna s) as [|x t] eqn:E; [destruct H|].
  exists (Qlist_min x t). split; [reflexivity|].
  apply In_dropna. rewrite E. clear. revert x.
  induction t as [|y t IH]; intro x; simpl; [now left|].
  destruct (IH (Qminb x y)) as [H|H]; [|now right; right].
  unfold Qminb in *. destruct (Qle_bool x y); [now left|now right; left].
Qed.

Lemma nth_error_rolling_mean (w : nat) (s : Series) (i : nat) :
  (i < length s)%nat ->
  nth_error (rolling_mean w s) i =
  Some (if (i + 1 <? w)%nat then None else window_mean w (window_at w s i)).
Proof.
  intro H. unfold rolling_mean. rewrite nth_error_map, nth_error_seq.
  apply Nat.ltb_lt in H. rewrite H. reflexivity.
Qed.

Lemma In_rolling_mean (w : nat) (s : Series) (x : option Q) :
  In x (rolling_mean w s) <->
  exists i, (i < length s)%nat /\
    x = if (i + 1 <? w)%nat then None else window_mean w (window_at w s i).
Proof.
  unfold rolling_mean. rewrite in_map_iff. split.
  - intros [i [<- Hi]]. apply in_seq in Hi. exists i. split; [lia|reflexivity].
  - intros [i [Hi ->]]. exists i. split; [reflexivity|]. apply in_seq. lia.
Qed.

Lemma nth_error_window_at (w : nat) (s : Series) (i m : nat) :
  nth_error (window_at w s i) m =
  if (m <? w)%nat then nth_error s (i + 1 - w + m) else None.
Proof.
  unfold window_at. rewrite nth_error_firstn, nth_error_skipn. reflexivity.
Qed.

Lemma length_window_at (w : nat) (s : Series) (i : nat) :
  (w <= i + 1)%nat -> (i < length s)%nat -> length (window_at w s i) = w.
Proof.
  intros H1 H2. unfold window_at. rewrite length_firstn, length_skipn. lia.
Qed.

Lemma In_window_at (w : nat) (s : Series) (i : nat) (x : option Q) :
  In x (window_at w s i) <->
  exists j, (i + 1 - w <= j < i + 1 - w + w)%nat /\ nth_error s j = Some x.
Proof.
  rewrite In_iff_nth_error. split.
  - intros [m Hm]. rewrite nth_error_window_at in Hm.
    destruct (m <? w)%nat eqn:E; [|discriminate].
    apply Nat.ltb_lt in E. exists (i + 1 - w + m)%nat. split; [lia|exact Hm].
  - intros [j [Hj Hx]]. exists (j - (i + 1 - w))%nat.
    rewrite nth_error_window_at.
    assert (E : (j - (i + 1 - w) <? w)%nat = true) by (apply Nat.ltb_lt; lia).
    rewrite E. replace (i + 1 - w + (j - (i + 1 - w)))%nat with j by lia.
    exact Hx.
Qed.

(** A window has a mean exactly when it is full and nothing is missing. *)
Lemma window_mean_defined (w : nat) (win : Series) :
  (length win <= w)%nat ->
  (window_mean w win <> None <-> length win = w /\ ~ In None win).
Proof.
  intro Hlen. unfold window_mean. pose proof (count_le_length win) as Hc.
  rewrite <- count_full_iff.
  destruct (w <=? count win)%nat eqn:E.
  - apply Nat.leb_le in E. split; [lia|discriminate].
  - apply Nat.leb_gt in E. split; [congruence|lia].
Qed.

Lemma window_full_iff (w : nat) (s : Series) (i : nat) :
  (w <= i + 1)%nat -> (i < length s)%nat ->
  (window_mean w (window_at w s i) <> None <-> run_present s (i + 1 - w) w).
Proof.
  intros H1 H2.
  rewrite window_mean_defined by (rewrite length_window_at; lia).
  rewrite length_window_at by lia. rewrite In_window_at. split.
  - intros [_ Hno] j Hj.
    destruct (nth_error s j) as [[q|]|] eqn:E.
    + now exists q.
    + exfalso. apply Hno. exists j. split; [lia|exact E].
    + apply nth_error_None in E. lia.
  - intro Hrun. split; [reflexivity|]. intros [j [Hj E]].
    destruct (Hrun j Hj) as [q Hq]. congruence.
Qed.

Lemma Qof_nat_S (n : nat) : Qof_nat (S n) == Qof_nat n + 1.
Proof.
  unfold Qof_nat. rewrite Nat2Z.inj_succ. unfold Z.succ.
  rewrite inject_Z_plus. reflexivity.
Qed.



(** ** Calc7Q *)



(** C10. [Calc7Q] takes its minimum over the windows of 7 consecutive
    entries that are all present: a window that contains a missing entry
    contributes NaN, the result is NaN exactly when no 7 consecutive
    entries are all present (however many entries there are), and a
    numeric result is the mean of such a window. *)
Theorem Calc7Q_full_windows_only (s : Series) :
  (forall i j, (6 <= i < length s)%nat -> (i - 6 <= j <= i)%nat ->
     nth_error s j = Some None ->
     nth_error (rolling_mean 7 s) i = Some None) /\
  (Calc7Q s = nan <-> ~ has_run s 7) /\
  (forall q, Calc7Q s = fin q ->
     exists i, (i + 7 <= length s)%nat /\ run_present s i 7 /\
               window_mean 7 (firstn 7 (skipn i s)) = Some q).
Proof.
  assert (Hentry : forall x, In (Some x) (rolling_mean 7 s) ->
     exists i, (i + 7 <= length s)%nat /\ run_present s i 7 /\
               window_mean 7 (firstn 7 (skipn i s)) = Some x).
  { intros x Hx. apply In_rolling_mean in Hx. destruct Hx as [i [Hi Hx]].
    destruct (i + 1 <? 7)%nat eqn:E; [discriminate|].
    apply Nat.ltb_ge in E. exists (i + 1 - 7)%nat.
    split; [lia|]. split; [|now symmetry].
    apply window_full_iff; [lia|lia|]. rewrite <- Hx. discriminate. }
  split; [|split].
  - intros i j Hi Hj Hmiss. rewrite nth_error_rolling_mean by lia.
    assert (E : (i + 1 <? 7)%nat = false) by (apply Nat.ltb_ge; lia).
    rewrite E. f_equal.
    destruct (window_mean 7 (window_at 7 s i)) as [m|] eqn:Em;
      [|reflexivity].
    assert (Hrun : run_present s (i + 1 - 7) 7).
    { apply window_full_iff; [lia|lia|]. rewrite Em. discriminate. }
    destruct (Hrun j) as [q Hq]; [lia|]. congruence.
  - split.
    + intros Hnan [i [Hi Hrun]].
      assert (Hw : window_mean 7 (window_at 7 s (i + 6)) <> None).
      { apply window_full_iff; [lia|lia|].
        replace (i + 6 + 1 - 7)%nat with i by lia. exact Hrun. }
      destruct (window_mean 7 (window_at 7 s (i + 6))) as [m|] eqn:Em;
        [|congruence].
      assert (Hin : In (Some m) (rolling_mean 7 s)).
      { apply In_rolling_mean. exists (i + 6)%nat. split; [lia|].
        assert (E : (i + 6 + 1 <? 7)%nat = false)
          by (apply Nat.ltb_ge; lia).
        rewrite E. now rewrite Em. }
      destruct (min_some_present _ _ Hin) as [m' [Hmin _]].
      unfold Calc7Q in Hnan. congruence.
    + intro Hno. unfold Calc7Q. apply min_all_missing.
      intros [x|] Hx; [|reflexivity].
      exfalso. apply Hno. destruct (Hentry x Hx) as [i [Hi [Hrun _]]].
      exists i. split; assumption.
  - intros q Hq. unfold Calc7Q, min in Hq.
    destruct (dropna (rolling_mean 7 s)) as [|x t] eqn:E; [discriminate|].
    injection Hq as <-. apply Hentry.
    assert (Hx : In (Some x) (rolling_mean 7 s))
      by (apply In_dropna; rewrite E; now left).
    destruct (min_some_present _ _ Hx) as [m [Hmin Hm]].
    unfold min in Hmin. rewrite E in Hmin. injection Hmin as <-. exact Hm.
Qed.

Lemma Calc7Q_full_windows_only_witness :
  let s := [Some 1; Some 1; Some 1; None; Some 1; Some 1; Some 1;
            Some 1; Some 1] in
  nth_error (rolling_mean 7 s) 7 = Some None /\ Calc7Q s = nan.
Proof.
  intro s. destruct (Calc7Q_full_windows_only s) as [H [Hnan _]]. split.
  - apply (H 7%nat 3%nat); [simpl; lia|lia|reflexivity].
  - apply Hnan. intros [i [Hi Hrun]]. simpl in Hi.
    destruct (Hrun 3%nat) as [q Hq]; [lia|]. discriminate.
Defined.

(** ** The store *)

Lemma nth_error_new (st : Store) (df : DataFrame) :
  nth_error (st ++ [df]) (length st) = Some df.
Proof.
  rewrite nth_error_app2 by lia. now rewrite Nat.sub_diag.
Qed.

Lemma nth_error_old (st : Store) (df : DataFrame) (k : nat) :
  (k < length st)%nat -> nth_error (st ++ [df]) k = nth_error st k.
Proof. apply nth_error_app1. Qed.

Lemma nth_error_update_same (st : Store) (df : DataFrame) : forall r,
  (r < length st)%nat -> nth_error (update st r df) r = Some df.
Proof.
  induction st as [|x t IH]; intros r H; simpl in H; [lia|].
  destruct r; simpl; [reflexivity|]. apply IH. lia.
Qed.

Lemma nth_error_update_other (st : Store) (df : DataFrame) : forall r k,
  k <> r -> nth_error (update st r df) k = nth_error st k.
Proof.
  induction st as [|x t IH]; intros r k H; [reflexivity|].
  destruct r, k; simpl; try reflexivity; try congruence.
  apply IH. congruence.
Qed.

(** ** ReadData *)

Lemma isna_sum_mask_negative (df : DataFrame) :
  isna_sum (getitem col_Discharge (mask_negative df)) =
  (isna_sum (getitem col_Discharge df)
   + length (filter negative (getitem col_Discharge df)))%nat.
Proof.
  unfold isna_sum, mask_negative, getitem.
  induction df as [|r t IH]; [reflexivity|].
  cbn [map filter]. destruct (Discharge r) as [q|] eqn:E; cbn [negative].
  - destruct (Qltb q 0); cbn [set_Discharge Discharge isna length].
    + rewrite IH. lia.
    + rewrite E. cbn [isna]. exact IH.
  - rewrite E. cbn [isna length]. now rewrite IH.
Qed.

(** C1 (as amended). Whenever the file parses, [ReadData] returns a new
    frame in which the negative discharges are overwritten to missing,
    together with the number of missing discharge entries counted before
    that overwrite: entries that were negative in the parsed data are not
    in the count, so the returned frame has that many more missing
    entries than the count says. *)
Theorem ReadData_counts_before_correction (fs : FileSystem)
  (fileName : string) (raw : DataFrame) (st : Store)
  (Hfile : fs fileName = Some raw) :
  exists DataDF st',
    ReadData fs fileName st =
      Some ((DataDF, isna_sum (getitem col_Discharge raw)), st') /\
    nth_error st' DataDF = Some (mask_negative raw) /\
    isna_sum (getitem col_Discharge (mask_negative raw)) =
      (isna_sum (getitem col_Discharge raw)
       + length (filter negative (getitem col_Discharge raw)))%nat /\
    (forall k, (k < length st)%nat -> nth_error st' k = nth_error st k).
Proof.
  exists (S (length st)).
  exists (update ((st ++ [raw]) ++ [set_index_Date raw]) (S (length st))
                 (mask_negative raw)).
  assert (Hlen : length (st ++ [raw]) = S (length st))
    by (rewrite length_app; simpl; lia).
  assert (Hnew : nth_error ((st ++ [raw]) ++ [set_index_Date raw])
                           (S (length st)) = Some (set_index_Date raw))
    by (rewrite <- Hlen; apply nth_error_new).
  split; [|split; [|split]].
  - unfold ReadData, bind, read_csv. rewrite Hfile.
    unfold new, deref, assign, ret.
    rewrite nth_error_new, Hlen, Hnew. cbv beta iota.
    rewrite Hnew. reflexivity.
  - apply nth_error_update_same. rewrite !length_app. simpl. lia.
  - apply isna_sum_mask_negative.
  - intros k Hk. rewrite nth_error_update_other by lia.
    rewrite !nth_error_old; [reflexivity|assumption|lia].
Qed.

Lemma ReadData_counts_before_correction_witness :
  exists DataDF st',
    ReadData sample_fs "station.txt" [] = Some ((DataDF, 1%nat), st') /\
    nth_error st' DataDF = Some (mask_negative sample_frame) /\
    isna_sum (getitem col_Discharge (mask_negative sample_frame)) =
      (1 + 1)%nat /\
    (forall k, (k < 0)%nat -> nth_error st' k = nth_error [] k).
Proof.
  exact (ReadData_counts_before_correction sample_fs "station.txt"
           sample_frame [] eq_refl).
Defined.

(** C1, counterexample. For a file with one negative and one missing
    discharge, [ReadData] returns the count 1 with a frame that has 2
    missing entries: the count was taken before the negative value was
    overwritten. *)
Lemma ReadData_count_misses_negative :
  ~ count_of_returned_frame sample_fs "station.txt" [].
Proof.
  intro H. vm_compute in H. destruct H as [d [Hd Hc]].
  injection Hd as <-. discriminate.
Qed.

(** ** ClipData *)

Lemma ts_ltb_spec (a b : Timestamp) :
  ts_ltb a b = true <->
  (year a < year b \/
   (year a = year b /\
    (month a < month b \/ (month a = month b /\ day a < day b))))%Z.
Proof.
  unfold ts_ltb.
  rewrite !orb_true_iff, !andb_true_iff, !orb_true_iff, !andb_true_iff.
  rewrite !Z.ltb_lt, !Z.eqb_eq. reflexivity.
Qed.

Lemma ts_leb_spec (a b : Timestamp) :
  ts_leb a b = true <-> ~ ts_ltb b a = true.
Proof.
  unfold ts_leb. rewrite negb_true_iff. symmetry. apply not_true_iff_false.
Qed.

Lemma ts_leb_refl (a : Timestamp) : ts_leb a a = true.
Proof. rewrite ts_leb_spec, ts_ltb_spec. lia. Qed.

Lemma ts_ltb_leb (a b : Timestamp) : ts_ltb a b = true -> ts_leb a b = true.
Proof. rewrite ts_leb_spec, !ts_ltb_spec. lia. Qed.

Lemma ts_ltb_leb_trans (a b c : Timestamp) :
  ts_ltb a b = true -> ts_leb b c = true -> ts_ltb a c = true.
Proof. rewrite ts_leb_spec, !ts_ltb_spec. lia. Qed.

Lemma ts_ltb_trans (a b c : Timestamp) :
  ts_ltb a b = true -> ts_ltb b c = true -> ts_ltb a c = true.
Proof. rewrite !ts_ltb_spec. lia. Qed.

Lemma ascending_tail (r : Row) (t : DataFrame) :
  ascending (r :: t) = true -> ascending t = true.
Proof.
  simpl. destruct t; [reflexivity|]. now intros [_ H]%andb_true_iff.
Qed.

Lemma ascending_first (t : DataFrame) : forall r,
  ascending (r :: t) = true ->
  forall x, In x t -> ts_ltb (Date r) (Date x) = true.
Proof.
  induction t as [|r' t IH]; intros r H x Hx; [destruct Hx|].
  cbn [ascending] in H. apply andb_true_iff in H. destruct H as [H1 H2].
  destruct Hx as [<-|Hx]; [assumption|].
  apply (ts_ltb_trans _ (Date r')); [assumption|]. now apply IH.
Qed.

Lemma ascending_last (t : DataFrame) : forall r d,
  ascending (r :: t) = true ->
  forall x, In x (r :: t) -> ts_leb (Date x) (Date (last (r :: t) d)) = true.
Proof.
  induction t as [|r' t IH]; intros r d H x Hx.
  - destruct Hx as [<-|[]]. apply ts_leb_refl.
  - change (last (r :: r' :: t) d) with (last (r' :: t) d).
    pose proof (ascending_tail _ _ H) as Ht.
    destruct Hx as [<-|Hx]; [|now apply IH].
    apply ts_ltb_leb. apply (ts_ltb_leb_trans _ (Date r')).
    + apply (ascending_first _ _ H). now left.
    + apply IH; [assumption|now left].
Qed.

Lemma filter_id {A} (f : A -> bool) (l : list A) :
  (forall x, In x l -> f x = true) -> filter f l = l.
Proof.
  induction l as [|x t IH]; intro H; [reflexivity|].
  simpl. rewrite (H x) by now left. f_equal. apply IH.
  intros y Hy. apply H. now right.
Qed.

Lemma loc_slice_full_range (r0 : Row) (t : DataFrame) :
  ascending (r0 :: t) = true ->
  loc_slice (r0 :: t) (Date r0) (Date (last (r0 :: t) r0)) = r0 :: t.
Proof.
  intro H. unfold loc_slice. apply filter_id. intros x Hx.
  apply andb_true_iff. split.
  - destruct Hx as [<-|Hx]; [apply ts_leb_refl|].
    apply ts_ltb_leb. now apply (ascending_first t).
  - now apply ascending_last.
Qed.

Lemma ClipData_run (st : Store) (DataDF : ref) (d : DataFrame)
  (startDate endDate : Timestamp) :
  nth_error st DataDF = Some d ->
  ClipData DataDF startDate endDate st =
  Some ((length st,
         isna_sum (getitem col_Discharge (loc_slice d startDate endDate))),
        st ++ [loc_slice d startDate endDate]).
Proof.
  intro Hd. unfold ClipData, bind, deref, new, ret. rewrite Hd.
  rewrite nth_error_new. reflexivity.
Qed.

(** C8. [ClipData] allocates the clipped frame and leaves every frame of
    the store, the input included, as it was.  Clipping to any range
    returns at most as many rows as the input has, with the missing count
    of the clipped rows.  Clipping a series with ascending dates to the
    range from its first to its last date returns a frame identical to
    the input, with the missing count of the input. *)
Theorem ClipData_full_range_identity (st : Store) (DataDF : ref)
  (d : DataFrame) (Hd : nth_error st DataDF = Some d) :
  (forall startDate endDate, exists out n st',
     ClipData DataDF startDate endDate st = Some ((out, n), st') /\
     nth_error st' out = Some (loc_slice d startDate endDate) /\
     n = isna_sum (getitem col_Discharge (loc_slice d startDate endDate)) /\
     (length (loc_slice d startDate endDate) <= length d)%nat /\
     nth_error st' DataDF = Some d /\
     (forall k, (k < length st)%nat -> nth_error st' k = nth_error st k)) /\
  (forall r0 t, d = r0 :: t -> ascending d = true ->
     exists out st',
       ClipData DataDF (Date r0) (Date (last d r0)) st =
         Some ((out, isna_sum (getitem col_Discharge d)), st') /\
       nth_error st' out = Some d /\
       nth_error st' DataDF = Some d).
Proof.
  assert (Hlt : (DataDF < length st)%nat)
    by (apply nth_error_Some; congruence).
  split.
  - intros startDate endDate.
    exists (length st),
      (isna_sum (getitem col_Discharge (loc_slice d startDate endDate))),
      (st ++ [loc_slice d startDate endDate]).
    split; [now apply ClipData_run|].
    split; [apply nth_error_new|].
    split; [reflexivity|].
    split; [apply filter_length_le|].
    split; [now rewrite nth_error_old|].
    intros k Hk. now apply nth_error_old.
  - intros r0 t -> Hasc.
    exists (length st), (st ++ [r0 :: t]).
    pose proof (ClipData_run st DataDF (r0 :: t) (Date r0)
                  (Date (last (r0 :: t) r0)) Hd) as Hrun.
    rewrite (loc_slice_full_range r0 t Hasc) in Hrun.
    split; [exact Hrun|].
    split; [apply nth_error_new|now rewrite nth_error_old].
Qed.

Lemma ClipData_full_range_identity_witness :
  exists out st',
    ClipData 0%nat (mkTimestamp 1970 9 29) (mkTimestamp 1970 10 1)
             [sample_frame] =
      Some ((out, 1%nat), st') /\
    nth_error st' out = Some sample_frame /\
    nth_error st' 0%nat = Some sample_frame.
Proof.
  destruct (ClipData_full_range_identity [sample_frame] 0%nat sample_frame
              eq_refl) as [_ H].
  exact (H (sample_row 1970 9 29 (Some (-1)))
           [sample_row 1970 9 30 None; sample_row 1970 10 1 (Some 4)]
           eq_refl eq_refl).
Defined.

(** ** Resampling *)

Lemma insert_row_perm (r : Row) (l : DataFrame) :
  Permutation (insert_row r l) (r :: l).
Proof.
  induction l as [|y t IH]; simpl; [apply Permutation_refl|].
  destruct (ts_leb (Date r) (Date y)); [apply Permutation_refl|].
  apply perm_trans with (y :: r :: t); [now apply perm_skip|apply perm_swap].
Qed.

Lemma sort_index_perm (df : DataFrame) : Permutation (sort_index df) df.
Proof.
  induction df as [|r t IH]; simpl; [apply perm_nil|].
  apply perm_trans with (r :: sort_index t);
    [apply insert_row_perm|now apply perm_skip].
Qed.

Lemma sort_index_In (df : DataFrame) (r : Row) :
  In r (sort_index df) <-> In r df.
Proof.
  split; apply Permutation_in;
    [apply sort_index_perm|apply Permutation_sym, sort_index_perm].
Qed.

Lemma length_sort_index (df : DataFrame) :
  length (sort_index df) = length df.
Proof. apply Permutation_length, sort_index_perm. Qed.

(** A frame whose dates ascend is its own sort. *)
Lemma sort_index_ascending (df : DataFrame) :
  ascending df = true -> sort_index df = df.
Proof.
  induction df as [|r t IH]; intro H; [reflexivity|].
  cbn [sort_index fold_right]. fold (sort_index t).
  rewrite (IH (ascending_tail _ _ H)).
  destruct t as [|r' t']; [reflexivity|].
  cbn [insert_row].
  rewrite (ts_ltb_leb _ _ (ascending_first _ _ H r' (or_introl eq_refl))).
  reflexivity.
Qed.

Lemma group_sort_In (key : Timestamp -> Z) (b : Z) (df : DataFrame)
  (r : Row) :
  In r (group key b (sort_index df)) <-> In r (group key b df).
Proof.
  unfold group. rewrite !filter_In, sort_index_In. reflexivity.
Qed.

Lemma In_Zrange (lo hi b : Z) : In b (Zrange lo hi) <-> (lo <= b <= hi)%Z.
Proof.
  unfold Zrange. rewrite in_map_iff. split.
  - intros [k [<- Hk]]. apply in_seq in Hk. lia.
  - intro H. exists (Z.to_nat (b - lo)). split; [lia|]. apply in_seq. lia.
Qed.

Lemma NoDup_Zrange (lo hi : Z) : NoDup (Zrange lo hi).
Proof.
  unfold Zrange. apply Injective_map_NoDup; [|apply seq_NoDup].
  intros x y H. lia.
Qed.

Lemma fold_min_le (k : Z) (ks : list Z) :
  forall x, In x (k :: ks) -> (fold_right Z.min k ks <= x)%Z.
Proof.
  induction ks as [|y t IH]; intros x Hx; simpl in *.
  - destruct Hx as [->|[]]. lia.
  - pose proof (IH x) as IHx.
    destruct Hx as [H|[H|H]];
      [specialize (IHx (or_introl H))| |specialize (IHx (or_intror H))];
      lia.
Qed.

Lemma fold_max_ge (k : Z) (ks : list Z) :
  forall x, In x (k :: ks) -> (x <= fold_right Z.max k ks)%Z.
Proof.
  induction ks as [|y t IH]; intros x Hx; simpl in *.
  - destruct Hx as [->|[]]. lia.
  - pose proof (IH x) as IHx.
    destruct Hx as [H|[H|H]];
      [specialize (IHx (or_introl H))| |specialize (IHx (or_intror H))];
      lia.
Qed.

Lemma fold_min_In (k : Z) (ks : list Z) : In (fold_right Z.min k ks) (k :: ks).
Proof.
  induction ks as [|y t IH]; simpl; [now left|].
  destruct (Z.min_spec y (fold_right Z.min k t)) as [[_ ->]|[_ ->]];
    [now right; left|].
  destruct IH as [H|H]; [now left|now right; right].
Qed.

Lemma fold_max_In (k : Z) (ks : list Z) : In (fold_right Z.max k ks) (k :: ks).
Proof.
  induction ks as [|y t IH]; simpl; [now left|].
  destruct (Z.max_spec y (fold_right Z.max k t)) as [[_ ->]|[_ ->]];
    [|now right; left].
  destruct IH as [H|H]; [now left|now right; right].
Qed.

(** The span of a non-empty frame: both end periods occur in the frame
    and every row lies between them. *)
Lemma period_span (key : Timestamp -> Z) (df : DataFrame) :
  df <> [] ->
  exists lo hi,
    first_period key df = Some lo /\ last_period key df = Some hi /\
    (forall r, In r df -> (lo <= key (Date r) <= hi)%Z) /\
    (exists r, In r df /\ key (Date r) = lo) /\
    (exists r, In r df /\ key (Date r) = hi).
Proof.
  intro Hne. unfold first_period, last_period.
  destruct (map (fun r => key (Date r)) df) as [|k ks] eqn:E.
  - destruct df; [congruence|discriminate].
  - exists (fold_right Z.min k ks), (fold_right Z.max k ks).
    split; [reflexivity|]. split; [reflexivity|].
    assert (Hin : forall x, In x (k :: ks) <->
                            exists r, In r df /\ key (Date r) = x).
    { intro x. rewrite <- E, in_map_iff. split; intros [r [H1 H2]];
        exists r; tauto. }
    split; [|split].
    + intros r Hr.
      assert (H : In (key (Date r)) (k :: ks))
        by (apply Hin; now exists r).
      split; [now apply fold_min_le|now apply fold_max_ge].
    + apply Hin, fold_min_In.
    + apply Hin, fold_max_In.
Qed.

Lemma resample_by_span (key : Timestamp -> Z) (label : Z -> Timestamp)
  (df : DataFrame) (lo hi : Z) :
  first_period key df = Some lo -> last_period key df = Some hi ->
  resample_by key label df =
  map (fun b => (label b, group key b (sort_index df))) (Zrange lo hi).
Proof.
  intros H1 H2. unfold resample_by. now rewrite H1, H2.
Qed.

(** A resampler is always a list of labelled groups over some list of
    period keys. *)
Lemma resample_by_keys (key : Timestamp -> Z) (label : Z -> Timestamp)
  (df : DataFrame) :
  exists ks, resample_by key label df =
             map (fun b => (label b, group key b (sort_index df))) ks.
Proof.
  unfold resample_by.
  destruct (first_period key df) as [lo|]; [|now exists []].
  destruct (last_period key df) as [hi|]; [|now exists []].
  now exists (Zrange lo hi).
Qed.

(** ** Columns aligned on period labels *)

Lemma ts_eqb_eq (a b : Timestamp) : ts_eqb a b = true <-> a = b.
Proof.
  unfold ts_eqb. rewrite !andb_true_iff, !Z.eqb_eq.
  destruct a, b; simpl. split.
  - intros [[-> ->] ->]. reflexivity.
  - intro E. injection E as -> -> ->. auto.
Qed.

Lemma year_end_inj (x y : Z) : year_end x = year_end y -> x = y.
Proof. unfold year_end. congruence. Qed.

Lemma month_start_inj (x y : Z) : month_start x = month_start y -> x = y.
Proof.
  unfold month_start. intro E. injection E as E1 E2.
  rewrite (Z.div_mod x 12), (Z.div_mod y 12) by lia. lia.
Qed.

Section Labelled.

Variable label : Z -> Timestamp.
Hypothesis label_inj : forall x y, label x = label y -> x = y.

Lemma at_label_map (F : Z -> np_float) (l : list Z) (b : Z) :
  In b l -> at_label (label b) (map (fun x => (label x, F x)) l) = F b.
Proof.
  unfold at_label. induction l as [|x t IH]; intro H; [destruct H|].
  cbn [map find fst]. destruct (ts_eqb (label x) (label b)) eqn:E.
  - apply ts_eqb_eq, label_inj in E. now subst.
  - destruct H as [->|H]; [|now apply IH].
    rewrite (proj2 (ts_eqb_eq _ _) eq_refl) in E. discriminate.
Qed.

Lemma apply_select_map (f : Series -> np_float) (c : Column)
  (G : Z -> DataFrame) (l : list Z) :
  apply f (select c (map (fun b => (label b, G b)) l)) =
  map (fun b => (label b, f (getitem c (G b)))) l.
Proof.
  unfold apply, select. rewrite !map_map. reflexivity.
Qed.

Lemma zip_with_map (op : np_float -> np_float -> np_float)
  (F H : Z -> np_float) (l : list Z) :
  zip_with op (map (fun b => (label b, F b)) l)
              (map (fun b => (label b, H b)) l) =
  map (fun b => (label b, op (F b) (H b))) l.
Proof.
  unfold zip_with. induction l as [|x t IH]; [reflexivity|].
  cbn [map combine fst snd]. f_equal. exact IH.
Qed.

Lemma scale_map (F : Z -> np_float) (k : Q) (l : list Z) :
  scale (map (fun b => (label b, F b)) l) k =
  map (fun b => (label b, np_mul (F b) (fin k))) l.
Proof.
  unfold scale. rewrite map_map. reflexivity.
Qed.

Lemma index_map (F : Z -> np_float) (l : list Z) :
  index (map (fun b => (label b, F b)) l) = map label l.
Proof.
  unfold index. rewrite map_map. reflexivity.
Qed.

End Labelled.

Section AggregatorProperties.

Variable sqrtQ : Q -> Q.

(** Each row of the annual table is the summary of its water year. *)
Lemma GetAnnualStatistics_rows (df : DataFrame) :
  GetAnnualStatistics sqrtQ df =
  map (fun p => annual_summary sqrtQ (fst p) (snd p)) (resample_A_SEP df).
Proof.
  unfold GetAnnualStatistics, resample_A_SEP. cbv zeta.
  destruct (resample_by_keys water_year year_end df) as [ks ->].
  rewrite !(apply_select_map year_end), (zip_with_map year_end).
  rewrite (scale_map year_end), (index_map year_end), !map_map.
  apply map_ext_in. intros b Hb. unfold annual_summary. cbn [fst snd].
  rewrite !(at_label_map year_end year_end_inj) by exact Hb.
  reflexivity.
Qed.

(** Each row of the monthly table is the summary of its month. *)
Lemma GetMonthlyStatistics_rows (df : DataFrame) :
  GetMonthlyStatistics sqrtQ df =
  map (fun p => monthly_summary sqrtQ (fst p) (snd p)) (resample_MS df).
Proof.
  unfold GetMonthlyStatistics, resample_MS, apply_dict, at_label_frame.
  cbv zeta. cbn [map fst snd].
  destruct (resample_by_keys month_number month_start df) as [ks ->].
  rewrite !(apply_select_map month_start), (zip_with_map month_start).
  rewrite (scale_map month_start), (index_map month_start), !map_map.
  apply map_ext_in. intros b Hb. unfold monthly_summary. cbn [fst snd].
  rewrite !(at_label_map month_start month_start_inj) by exact Hb.
  reflexivity.
Qed.

End AggregatorProperties.

(** ** Water years *)

Lemma valid_date_bounds (d : Timestamp) :
  valid_date d = true ->
  (1 <= month d <= 12 /\ 1 <= day d /\ (month d = 9 -> day d <= 30))%Z.
Proof.
  unfold valid_date. rewrite !andb_true_iff, !Z.leb_le.
  intros [[[H1 H2] H3] H4]. repeat split; try assumption.
  intro E. rewrite E in H4. exact H4.
Qed.

(** A day belongs to water year [wy] exactly when it lies between
    October 1 of the year before and September 30 of [wy]. *)
Lemma water_year_range (d : Timestamp) (wy : Z) :
  valid_date d = true ->
  (water_year d =? wy)%Z =
  ts_leb (year_begin wy) d && ts_leb d (year_end wy).
Proof.
  intro Hv. apply valid_date_bounds in Hv. destruct Hv as [Hm [Hd H9]].
  apply eq_true_iff_eq.
  rewrite Z.eqb_eq, andb_true_iff, !ts_leb_spec, !ts_ltb_spec.
  unfold water_year, year_begin, year_end. cbn [year month day].
  destruct (10 <=? month d)%Z eqn:E;
    [apply Z.leb_le in E|apply Z.leb_gt in E]; lia.
Qed.

Lemma group_water_year (df : DataFrame) (wy : Z) :
  (forall r, In r df -> valid_date (Date r) = true) ->
  group water_year wy df = loc_slice df (year_begin wy) (year_end wy).
Proof.
  intro Hv. unfold group, loc_slice. apply filter_ext_in.
  intros r Hr. apply water_year_range. now apply Hv.
Qed.

Section AggregatorClaims.

Variable sqrtQ : Q -> Q.

(** C5. The annual table of a non-empty daily series has exactly one row
    for every water year from that of the earliest date to that of the
    latest date.  The row of water year [wy] is labelled September 30 of
    [wy] and summarises, in date order, the days from October 1 of the
    year before up to and including September 30 of [wy]; a series whose
    dates ascend is already in that order. *)
Theorem GetAnnualStatistics_water_years (df : DataFrame)
  (Hne : df <> [])
  (Hvalid : forall r, In r df -> valid_date (Date r) = true) :
  exists lo hi,
    first_period water_year df = Some lo /\
    last_period water_year df = Some hi /\
    (forall r, In r df -> (lo <= water_year (Date r) <= hi)%Z) /\
    (exists r, In r df /\ water_year (Date r) = lo) /\
    (exists r, In r df /\ water_year (Date r) = hi) /\
    GetAnnualStatistics sqrtQ df =
      map (fun wy => annual_summary sqrtQ (year_end wy)
                       (loc_slice (sort_index df)
                                  (year_begin wy) (year_end wy)))
          (Zrange lo hi) /\
    (ascending df = true -> sort_index df = df) /\
    map a_index (GetAnnualStatistics sqrtQ df) =
      map year_end (Zrange lo hi) /\
    NoDup (map a_index (GetAnnualStatistics sqrtQ df)).
Proof.
  destruct (period_span water_year df Hne)
    as [lo [hi [Hlo [Hhi [Hspan [Hfirst Hlast]]]]]].
  exists lo, hi.
  assert (Hrows : GetAnnualStatistics sqrtQ df =
      map (fun wy => annual_summary sqrtQ (year_end wy)
                       (loc_slice (sort_index df)
                                  (year_begin wy) (year_end wy)))
          (Zrange lo hi)).
  { rewrite GetAnnualStatistics_rows. unfold resample_A_SEP.
    rewrite (resample_by_span _ _ _ _ _ Hlo Hhi), map_map.
    apply map_ext. intro wy. cbn [fst snd].
    rewrite group_water_year; [reflexivity|].
    intros r Hr. apply Hvalid. now apply sort_index_In. }
  assert (Hidx : map a_index (GetAnnualStatistics sqrtQ df) =
                 map year_end (Zrange lo hi)).
  { rewrite Hrows, map_map. reflexivity. }
  pose proof (sort_index_ascending df) as Hasc.
  repeat (split; [assumption|]).
  rewrite Hidx. apply Injective_map_NoDup; [|apply NoDup_Zrange].
  intros x y. apply year_end_inj.
Qed.

(** C9. In the monthly table the R-B Index of every month is
    [CalcRBindex] of the discharge values of that month: aggregating with
    the dict gives, at every label, what applying [CalcRBindex] to the
    Discharge groups gives, which is the route of the annual table. *)
Theorem monthly_RB_Index_per_bucket (df : DataFrame) :
  map (fun row => (m_index row, m_RB_Index row))
      (GetMonthlyStatistics sqrtQ df) =
    RBindex_per_bucket (resample_MS df) /\
  map (fun row => (a_index row, a_RB_Index row))
      (GetAnnualStatistics sqrtQ df) =
    RBindex_per_bucket (resample_A_SEP df) /\
  (forall (g : Resampler) (t : Timestamp),
     at_label_frame t
       (apply_dict [(col_Discharge, fun x => CalcRBindex x)] g) =
     at_label t (apply (fun x => CalcRBindex x) (select col_Discharge g))).
Proof.
  split; [|split].
  - rewrite GetMonthlyStatistics_rows, map_map. reflexivity.
  - rewrite GetAnnualStatistics_rows, map_map. reflexivity.
  - reflexivity.
Qed.

End AggregatorClaims.

Lemma GetAnnualStatistics_water_years_witness :
  map a_index (GetAnnualStatistics (fun x => x) sample_gap) =
  [year_end 1970; year_end 1971; year_end 1972].
Proof.
  destruct (GetAnnualStatistics_water_years (fun x => x) sample_gap)
    as [lo [hi [Hlo [Hhi [_ [_ [_ [_ [_ [Hidx _]]]]]]]]]].
  - discriminate.
  - intros r Hr. simpl in Hr.
    repeat (destruct Hr as [<-|Hr]; [reflexivity|]). destruct Hr.
  - injection Hlo as <-. injection Hhi as <-. exact Hidx.
Defined.

(** ** Periods without observations *)

Lemma dropna_nil_iff (s : Series) :
  dropna s = [] <-> forall q, ~ In (Some q) s.
Proof.
  split.
  - intros E q Hq. apply In_dropna in Hq. rewrite E in Hq. destruct Hq.
  - intro H. destruct (dropna s) as [|q t] eqn:E; [reflexivity|].
    exfalso. apply (H q), In_dropna. rewrite E. now left.
Qed.

Lemma all_missing_dropna (g : DataFrame) :
  all_missing g -> dropna (getitem col_Discharge g) = [].
Proof.
  intro H. apply dropna_nil_iff. intros q Hq. simpl in Hq.
  apply in_map_iff in Hq. destruct Hq as [r [E Hr]].
  rewrite (H r Hr) in E. discriminate.
Qed.

Lemma dropna_abs_diff_nil (s : Series) :
  dropna s = [] -> forall prev, dropna (abs (diff_from prev s)) = [].
Proof.
  induction s as [|[x|] t IH]; intros E prev; [reflexivity|discriminate|].
  cbn [diff_from sub_opt abs map option_map dropna]. now apply IH.
Qed.

Lemma CalcRBindex_nothing_present (s : Series) :
  dropna s = [] -> CalcRBindex s = nan.
Proof.
  intro E. unfold CalcRBindex, sum, diff. cbv zeta.
  rewrite E, (dropna_abs_diff_nil s E). reflexivity.
Qed.

Lemma Calc7Q_nothing_present (s : Series) : dropna s = [] -> Calc7Q s = nan.
Proof.
  intro E. unfold Calc7Q. apply min_all_missing.
  intros x Hx. apply In_rolling_mean in Hx. destruct Hx as [i [_ ->]].
  destruct (i + 1 <? 7)%nat; [reflexivity|].
  unfold window_mean, count.
  assert (Ew : dropna (window_at 7 s i) = []).
  { apply dropna_nil_iff. intros q Hq. apply In_window_at in Hq.
    destruct Hq as [j [_ Hj]]. apply nth_error_In in Hj.
    revert Hj. now apply dropna_nil_iff. }
  rewrite Ew. reflexivity.
Qed.

Lemma CalcExceed3TimesMedian_nothing_present (s : Series) :
  dropna s = [] -> CalcExceed3TimesMedian s = O.
Proof.
  intro E. unfold CalcExceed3TimesMedian, median. cbv zeta.
  rewrite E. cbn [sort fold_right length np_mul].
  apply count_gt_zero. intros [x|] _; reflexivity.
Qed.

Section EmptyPeriods.

Variable sqrtQ : Q -> Q.

Lemma annual_summary_all_missing (t : Timestamp) (g : DataFrame) :
  all_missing g ->
  let row := annual_summary sqrtQ t g in
  a_index row = t /\
  a_Mean_Flow row = nan /\ a_Peak_Flow row = nan /\
  a_Median_Flow row = nan /\ a_Coeff_Var row = nan /\
  a_Skew row = nan /\ a_RB_Index row = nan /\ a_7Q row = nan /\
  a_3xMedian row = fin 0.
Proof.
  intro H. apply all_missing_dropna in H. cbv zeta.
  unfold annual_summary. cbn [a_index a_Mean_Flow a_Peak_Flow
    a_Median_Flow a_Coeff_Var a_Skew a_RB_Index a_7Q a_3xMedian].
  rewrite (CalcRBindex_nothing_present _ H), (Calc7Q_nothing_present _ H).
  rewrite (CalcExceed3TimesMedian_nothing_present _ H).
  unfold mean, max, median, std, skew. rewrite H.
  repeat split; reflexivity.
Qed.

Lemma monthly_summary_all_missing (t : Timestamp) (g : DataFrame) :
  all_missing g ->
  let row := monthly_summary sqrtQ t g in
  m_index row = t /\
  m_Mean_Flow row = nan /\ m_Coeff_Var row = nan /\ m_RB_Index row = nan.
Proof.
  intro H. apply all_missing_dropna in H. cbv zeta.
  unfold monthly_summary. cbn [m_index m_Mean_Flow m_Coeff_Var m_RB_Index].
  rewrite (CalcRBindex_nothing_present _ H).
  unfold mean, std. rewrite H.
  repeat split; reflexivity.
Qed.

(** C2 (as amended). Every water year, and every month, of the span of
    the series has a row in its table, also when all its discharge
    observations are missing.  In that case Mean Flow, Peak Flow, Median
    Flow, Coeff Var, Skew, R-B Index and 7Q of the annual row are NaN and
    its 3xMedian is the count 0; Mean Flow, Coeff Var and R-B Index of
    the monthly row are NaN. *)
Theorem all_missing_period_row (df : DataFrame) :
  (forall lo hi wy,
     first_period water_year df = Some lo ->
     last_period water_year df = Some hi ->
     (lo <= wy <= hi)%Z ->
     all_missing (group water_year wy df) ->
     exists row,
       In row (GetAnnualStatistics sqrtQ df) /\
       a_index row = year_end wy /\
       a_Mean_Flow row = nan /\ a_Peak_Flow row = nan /\
       a_Median_Flow row = nan /\ a_Coeff_Var row = nan /\
       a_Skew row = nan /\ a_RB_Index row = nan /\ a_7Q row = nan /\
       a_3xMedian row = fin 0) /\
  (forall lo hi k,
     first_period month_number df = Some lo ->
     last_period month_number df = Some hi ->
     (lo <= k <= hi)%Z ->
     all_missing (group month_number k df) ->
     exists row,
       In row (GetMonthlyStatistics sqrtQ df) /\
       m_index row = month_start k /\
       m_Mean_Flow row = nan /\ m_Coeff_Var row = nan /\
       m_RB_Index row = nan).
Proof.
  split.
  - intros lo hi wy Hlo Hhi Hwy Hmiss.
    exists (annual_summary sqrtQ (year_end wy)
              (group water_year wy (sort_index df))).
    split; [|apply annual_summary_all_missing;
             intros r Hr; now apply Hmiss, group_sort_In].
    rewrite GetAnnualStatistics_rows. unfold resample_A_SEP.
    rewrite (resample_by_span _ _ _ _ _ Hlo Hhi), map_map.
    apply in_map_iff. exists wy. split; [reflexivity|now apply In_Zrange].
  - intros lo hi k Hlo Hhi Hk Hmiss.
    exists (monthly_summary sqrtQ (month_start k)
              (group month_number k (sort_index df))).
    split; [|apply monthly_summary_all_missing;
             intros r Hr; now apply Hmiss, group_sort_In].
    rewrite GetMonthlyStatistics_rows. unfold resample_MS.
    rewrite (resample_by_span _ _ _ _ _ Hlo Hhi), map_map.
    apply in_map_iff. exists k. split; [reflexivity|now apply In_Zrange].
Qed.

End EmptyPeriods.

Lemma all_missing_period_row_witness :
  exists row,
    In row (GetAnnualStatistics (fun x => x) sample_gap) /\
    a_index row = year_end 1971 /\
    a_Mean_Flow row = nan /\ a_Peak_Flow row = nan /\
    a_Median_Flow row = nan /\ a_Coeff_Var row = nan /\
    a_Skew row = nan /\ a_RB_Index row = nan /\ a_7Q row = nan /\
    a_3xMedian row = fin 0.
Proof.
  destruct (all_missing_period_row (fun x => x) sample_gap) as [H _].
  apply (H 1970%Z 1972%Z 1971%Z); [reflexivity|reflexivity|lia|].
  intros r Hr. simpl in Hr.
  repeat (destruct Hr as [<-|Hr]; [reflexivity|]). destruct Hr.
Defined.

(** C2, counterexample. Water year 1971 of the sample has two rows, both
    with a missing discharge.  Its row in the annual table has Tqmean 0
    (no entry above the mean, out of two entries) and 3xMedian 0: not
    every metric column is NaN. *)
Lemma all_missing_year_not_all_nan :
  ~ (forall sqrtQ, all_missing_year_all_nan sqrtQ sample_gap 1971).
Proof.
  intro H. destruct (H (fun x => x)) as [row [Hin [Hidx Hnan]]].
  - intros r Hr. simpl in Hr.
    repeat (destruct Hr as [<-|Hr]; [reflexivity|]). destruct Hr.
  - destruct Hnan as [_ [_ [_ [_ [_ [Htq _]]]]]].
    vm_compute in Hin.
    destruct Hin as [<-|[<-|[<-|[]]]]; discriminate.
Qed.

(** ** Worked values *)

(** The 14-day scenario 1, 2, ..., 7, 7, ..., 2, 1: six of fourteen days
    above the mean 4, and a lowest 7-day mean of 4. *)
Example scenario_mean :
  feq (mean (map Some [1;2;3;4;5;6;7;7;6;5;4;3;2;1])) (fin 4).
Proof. vm_compute. reflexivity. Qed.

Example scenario_Tqmean :
  feq (CalcTqmean (map Some [1;2;3;4;5;6;7;7;6;5;4;3;2;1])) (fin (6 # 14)).
Proof. vm_compute. reflexivity. Qed.

Example scenario_7Q :
  feq (Calc7Q (map Some [1;2;3;4;5;6;7;7;6;5;4;3;2;1])) (fin 4).
Proof. vm_compute. reflexivity. Qed.

Example scenario_RBindex :
  feq (CalcRBindex (map Some [1;2;3;4;5;6;7;7;6;5;4;3;2;1])) (fin (12 # 56)).
Proof. vm_compute. reflexivity. Qed.

(** A total of zero with a movement in between: the division gives an
    infinity, which is why negative readings must not reach the kernel. *)
Example RBindex_signed_zero_total :
  CalcRBindex (map Some [1; -1]) = inf false.
Proof. reflexivity. Qed.

(** Two missing days and nothing else: no day is above the mean. *)
Example Tqmean_two_missing : feq (CalcTqmean [None; None]) (fin 0).
Proof. vm_compute. reflexivity. Qed.

Example Tqmean_no_rows : CalcTqmean [] = nan.
Proof. reflexivity. Qed.

Example sample_gap_labels :
  map fst (resample_A_SEP sample_gap) =
  [mkTimestamp 1970 9 30; mkTimestamp 1971 9 30; mkTimestamp 1972 9 30].
Proof. reflexivity. Qed.

Example sample_gap_months :
  length (GetMonthlyStatistics (fun x => x) sample_gap) = 14%nat.
Proof. reflexivity. Qed.

Example sample_clip_outside :
  loc_slice sample_frame (mkTimestamp 1980 1 1) (mkTimestamp 1970 1 1) = [].
Proof. reflexivity. Qed.

(** * Further properties of the kernels *)

(** ** Sums and bounds *)



(** ** CalcRBindex on the loader's data *)

Lemma sum_nonneg (s : Series) : nonneg (dropna s) -> 0 <= sum s.
Proof. apply Qsum_nonneg. Qed.

(** With no negative value the R-B index is NaN or a number that is not
    negative. *)
Lemma CalcRBindex_nonneg (s : Series) :
  nonneg (dropna s) -> nan_or_nonneg (CalcRBindex s).
Proof.
  intro Hnn. unfold CalcRBindex. cbv zeta.
  pose proof (sum_abs_nonneg (diff s)) as Hp.
  pose proof (sum_nonneg s Hnn) as Hq.
  destruct (Qeqb (sum s) 0) eqn:E.
  - apply Qeqb_eq in E.
    rewrite np_div_zero_zero; [exact I| |exact E].
    apply pathlength_all_zero; [|exact I].
    apply Qsum_nonneg_zero; assumption.
  - apply Qeqb_neq in E. rewrite np_div_fin by exact E.
    simpl. apply Qdiv_nonneg; [exact Hp|]. lra.
Qed.

(** ** Calc7Q between the lowest and the highest flow *)

Lemma min_cases (s : Series) :
  min s = nan \/ exists m, min s = fin m /\ In (Some m) s.
Proof.
  destruct (dropna s) as [|x t] eqn:E.
  - left. unfold min. now rewrite E.
  - right. apply (min_some_present s x), In_dropna. rewrite E. now left.
Qed.


Lemma In_window_at_In (w : nat) (s : Series) (i : nat) (x : option Q) :
  In x (window_at w s i) -> In x s.
Proof.
  intro H. apply In_window_at in H. destruct H as [j [_ Hj]].
  now apply nth_error_In in Hj.
Qed.




(** ** Sorting and the median *)

Lemma insert_sorted_perm (x : Q) (l : list Q) :
  Permutation (insert_sorted x l) (x :: l).
Proof.
  induction l as [|y t IH]; simpl; [apply Permutation_refl|].
  destruct (Qle_bool x y); [apply Permutation_refl|].
  apply perm_trans with (y :: x :: t); [now apply perm_skip|apply perm_swap].
Qed.

Lemma sort_perm (l : list Q) : Permutation (sort l) l.
Proof.
  induction l as [|x t IH]; simpl; [apply perm_nil|].
  apply perm_trans with (x :: sort t);
    [apply insert_sorted_perm|now apply perm_skip].
Qed.

Lemma insert_sorted_sorted (x : Q) (l : list Q) :
  StronglySorted Qle l -> StronglySorted Qle (insert_sorted x l).
Proof.
  induction l as [|y t IH]; intro H; simpl.
  - apply SSorted_cons; [apply SSorted_nil|apply Forall_nil].
  - apply StronglySorted_inv in H. destruct H as [Ht Hy].
    destruct (Qle_bool x y) eqn:E.
    + apply Qle_bool_iff in E. apply SSorted_cons.
      * now apply SSorted_cons.
      * apply Forall_cons; [exact E|].
        apply (Forall_impl _ (fun z Hz => Qle_trans _ _ _ E Hz) Hy).
    + apply SSorted_cons; [now apply IH|].
      apply (Permutation_Forall (Permutation_sym (insert_sorted_perm x t))).
      apply Forall_cons; [|exact Hy].
      apply Qlt_le_weak, Qnot_le_lt. intro Hc.
      apply Qle_bool_iff in Hc. congruence.
Qed.

Lemma sort_sorted (l : list Q) : StronglySorted Qle (sort l).
Proof.
  induction l as [|x t IH]; simpl; [apply SSorted_nil|].
  now apply insert_sorted_sorted.
Qed.

Lemma sorted_nth_le (v : list Q) :
  StronglySorted Qle v ->
  forall i j, (i <= j < length v)%nat -> nth i v 0 <= nth j v 0.
Proof.
  induction 1 as [|x t Ht IH Hx]; intros i j Hij; simpl in Hij; [lia|].
  destruct i, j; simpl; try lia.
  - apply Qle_refl.
  - rewrite Forall_forall in Hx. apply Hx, nth_In. lia.
  - apply IH. lia.
Qed.

Lemma Permutation_filter_length {A} (f : A -> bool) (l l' : list A) :
  Permutation l l' -> length (filter f l) = length (filter f l').
Proof.
  induction 1 as [|x l l' _ IH|x y l|l l' l'' _ IH1 _ IH2]; simpl.
  - reflexivity.
  - destruct (f x); simpl; congruence.
  - destruct (f x), (f y); reflexivity.
  - congruence.
Qed.

Lemma filter_length_mono {A} (f g : A -> bool) (l : list A) :
  (forall x, In x l -> f x = true -> g x = true) ->
  (length (filter f l) <= length (filter g l))%nat.
Proof.
  induction l as [|x t IH]; intro H; simpl; [lia|].
  assert (IHt : (length (filter f t) <= length (filter g t))%nat)
    by (apply IH; intros y Hy; apply H; now right).
  destruct (f x) eqn:Ef.
  - rewrite (H x (or_introl eq_refl) Ef). simpl. lia.
  - destruct (g x); simpl; lia.
Qed.

(** In a sorted list, the entries above a bound that position [k]
    respects all come after position [k]. *)
Lemma sorted_filter_above (v : list Q) (m : Q) :
  StronglySorted Qle v ->
  forall k, (k < length v)%nat -> nth k v 0 <= m ->
  (length (filter (fun x => Qltb m x) v) <= length v - S k)%nat.
Proof.
  induction 1 as [|x t Ht IH Hx]; intros k Hk Hm; simpl in Hk; [lia|].
  assert (Hxm : Qltb m x = false).
  { apply Qltb_ge. destruct k; simpl in Hm; [exact Hm|].
    rewrite Forall_forall in Hx.
    apply Qle_trans with (nth k t 0); [|exact Hm].
    apply Hx, nth_In. lia. }
  cbn [filter]. rewrite Hxm. destruct k; simpl.
  - pose proof (filter_length_le (fun y => Qltb m y) t). lia.
  - apply IH; [lia|exact Hm].
Qed.

Lemma count_gt_fin (s : Series) (m : Q) :
  count_gt s (fin m) = length (filter (fun x => Qltb m x) (dropna s)).
Proof.
  unfold count_gt. induction s as [|[x|] t IH]; cbn [filter dropna np_gt].
  - reflexivity.
  - destruct (Qltb m x); cbn [length]; congruence.
  - exact IH.
Qed.

(** The median of a series with observations is a number at or above the
    entry in the lower middle of the sorted observations, and at or below
    the one in the upper middle. *)
Lemma median_middle (s : Series) :
  dropna s <> [] ->
  let v := sort (dropna s) in
  exists med, median s = fin med /\
              nth ((length v - 1) / 2) v 0 <= med <= nth (length v / 2) v 0.
Proof.
  intros Hne v. unfold median. fold v. cbv zeta.
  assert (Hlen : (0 < length v)%nat).
  { unfold v. rewrite (Permutation_length (sort_perm (dropna s))).
    destruct (dropna s); [congruence|simpl; lia]. }
  pose proof (sort_sorted (dropna s)) as Hs. fold v in Hs.
  pose proof (Nat.div_mod_eq (length v) 2) as D1.
  pose proof (Nat.div_mod_eq (length v - 1) 2) as D2.
  pose proof (Nat.mod_upper_bound (length v) 2) as B1.
  pose proof (Nat.mod_upper_bound (length v - 1) 2) as B2.
  destruct (length v) as [|n] eqn:En; [lia|]. rewrite <- En in *.
  destruct (Nat.even (length v)) eqn:Ev.
  - apply Nat.even_spec in Ev. destruct Ev as [j Hj].
    assert (E1 : (length v / 2 - 1 = (length v - 1) / 2)%nat) by lia.
    rewrite E1.
    exists ((nth ((length v - 1) / 2) v 0 + nth (length v / 2) v 0) / 2).
    split; [reflexivity|].
    assert (Hle : nth ((length v - 1) / 2) v 0 <= nth (length v / 2) v 0)
      by (apply sorted_nth_le; [exact Hs|lia]).
    clear -Hle. split.
    + apply Qle_shift_div_l; [reflexivity|]. lra.
    + apply Qle_shift_div_r; [reflexivity|]. lra.
  - assert (Ho : Nat.odd (length v) = true)
      by (rewrite <- Nat.negb_even, Ev; reflexivity).
    apply Nat.odd_spec in Ho. destruct Ho as [j Hj].
    assert (E1 : ((length v - 1) / 2 = length v / 2)%nat) by lia.
    rewrite E1. exists (nth (length v / 2) v 0).
    split; [reflexivity|]. split; apply Qle_refl.
Qed.

(** ** CalcExceed3TimesMedian *)

(** X5. On discharge values none of which is negative (missing entries
    allowed), at most half of the observations exceed three times the
    median; missing entries are never counted. *)
Theorem CalcExceed3TimesMedian_at_most_half (s : Series) :
  nonneg (dropna s) ->
  (CalcExceed3TimesMedian s <= count s / 2)%nat.
Proof.
  intro Hnn. unfold CalcExceed3TimesMedian. cbv zeta.
  destruct (dropna s) as [|x0 t0] eqn:E.
  - rewrite (proj2 (count_gt_zero s _)); [lia|].
    intros y Hy. destruct y as [q|]; [|reflexivity].
    apply In_dropna in Hy. rewrite E in Hy. destruct Hy.
  - assert (Hne : dropna s <> []) by (rewrite E; discriminate).
    rewrite <- E in *. clear E x0 t0.
    destruct (median_middle s Hne) as [med [Hmed [Hlo _]]].
    set (v := sort (dropna s)) in *.
    pose proof (sort_perm (dropna s)) as Hperm. fold v in Hperm.
    pose proof (sort_sorted (dropna s)) as Hsort. fold v in Hsort.
    assert (Hlen : length v = count s)
      by (unfold count; now apply Permutation_length).
    assert (Hpos : (0 < length v)%nat).
    { rewrite Hlen. unfold count. destruct (dropna s); [congruence|].
      simpl. lia. }
    assert (Hmed0 : 0 <= med).
    { apply Qle_trans with (nth ((length v - 1) / 2) v 0); [|exact Hlo].
      apply Hnn. apply (Permutation_in _ Hperm). apply nth_In.
      pose proof (Nat.div_mod_eq (length v - 1) 2).
      pose proof (Nat.mod_upper_bound (length v - 1) 2). lia. }
    rewrite Hmed. cbn [np_mul]. rewrite count_gt_fin.
    rewrite <- (Permutation_filter_length _ _ _ Hperm).
    apply Nat.le_trans
      with (length (filter (fun x => Qltb med x) v)).
    + apply filter_length_mono. intros x _ Hx.
      apply Qltb_lt in Hx. apply Qltb_lt. lra.
    + pose proof (sorted_filter_above v med Hsort
                    ((length v - 1) / 2)) as Hcut.
      pose proof (Nat.div_mod_eq (length v - 1) 2) as D2.
      pose proof (Nat.mod_upper_bound (length v - 1) 2) as B2.
      pose proof (Nat.div_mod_eq (length v) 2) as D1.
      pose proof (Nat.mod_upper_bound (length v) 2) as B1.
      specialize (Hcut ltac:(lia) Hlo). rewrite <- Hlen. lia.
Qed.

Lemma CalcExceed3TimesMedian_at_most_half_witness :
  let s : Series := [Some 1; Some 40; None; Some 2; Some 50; Some 3] in
  (CalcExceed3TimesMedian s <= count s / 2)%nat.
Proof.
  intro s. apply CalcExceed3TimesMedian_at_most_half.
  intros x Hx. simpl in Hx.
  repeat (destruct Hx as [<-|Hx]; [discriminate|]). destruct Hx.
Defined.

(** Without the sign condition the bound fails: every entry of a negative
    constant series exceeds three times the median. *)
Example CalcExceed3TimesMedian_negative_constant :
  CalcExceed3TimesMedian (map Some [-1; -1; -1]) = 3%nat.
Proof. reflexivity. Qed.

(** ** The peak dominates *)

Lemma Qmaxb_l (x y : Q) : x <= Qmaxb x y.
Proof.
  unfold Qmaxb. destruct (Qle_bool x y) eqn:E.
  - now apply Qle_bool_iff.
  - apply Qle_refl.
Qed.

Lemma Qmaxb_r (x y : Q) : y <= Qmaxb x y.
Proof.
  unfold Qmaxb. destruct (Qle_bool x y) eqn:E.
  - apply Qle_refl.
  - apply Qlt_le_weak, Qnot_le_lt. intro Hc.
    apply Qle_bool_iff in Hc. congruence.
Qed.

Lemma Qlist_max_ub (l : list Q) :
  forall x y, In y (x :: l) -> y <= Qlist_max x l.
Proof.
  induction l as [|w l IH]; intros x y Hy; simpl.
  - destruct Hy as [->|[]]. apply Qle_refl.
  - destruct Hy as [->|[->|Hy]].
    + apply Qle_trans with (Qmaxb y w); [apply Qmaxb_l|].
      apply IH. now left.
    + apply Qle_trans with (Qmaxb x y); [apply Qmaxb_r|].
      apply IH. now left.
    + apply IH. now right.
Qed.

Lemma max_ub (s : Series) (p : Q) :
  max s = fin p -> forall q, In (Some q) s -> q <= p.
Proof.
  unfold max. destruct (dropna s) as [|x t] eqn:E; [discriminate|].
  intros Hp q Hq. injection Hp as <-.
  apply Qlist_max_ub. rewrite <- E. now apply In_dropna.
Qed.

Lemma max_defined (s : Series) (p : Q) : max s = fin p -> dropna s <> [].
Proof.
  unfold max. destruct (dropna s); [discriminate|]. discriminate.
Qed.

Lemma median_le_max (s : Series) (p : Q) :
  max s = fin p -> exists m, median s = fin m /\ m <= p.
Proof.
  intro Hp. pose proof (max_ub s p Hp) as Hub.
  pose proof (max_defined s p Hp) as Hne.
  destruct (median_middle s Hne) as [med [Hmed [_ Hhi]]].
  exists med. split; [exact Hmed|].
  apply Qle_trans with (nth (length (sort (dropna s)) / 2)
                            (sort (dropna s)) 0); [exact Hhi|].
  apply Hub, In_dropna. apply (Permutation_in _ (sort_perm (dropna s))).
  apply nth_In.
  assert (Hpos : (0 < length (sort (dropna s)))%nat).
  { rewrite (Permutation_length (sort_perm (dropna s))).
    destruct (dropna s); [congruence|simpl; lia]. }
  pose proof (Nat.div_mod_eq (length (sort (dropna s))) 2).
  pose proof (Nat.mod_upper_bound (length (sort (dropna s))) 2). lia.
Qed.

Lemma Qlist_max_In (l : list Q) : forall x, In (Qlist_max x l) (x :: l).
Proof.
  induction l as [|y t IH]; intro x; simpl; [now left|].
  destruct (IH (Qmaxb x y)) as [H|H]; [|now right; right].
  unfold Qmaxb in *. destruct (Qle_bool x y); [now right; left|now left].
Qed.

Lemma max_attained (s : Series) (p : Q) : max s = fin p -> In (Some p) s.
Proof.
  unfold max. destruct (dropna s) as [|x t] eqn:E; [discriminate|].
  intro H. injection H as <-. apply In_dropna. rewrite E.
  apply Qlist_max_In.
Qed.

Section PeakDominates.

Variable sqrtQ : Q -> Q.

(** X6. In every row of the annual table with a numeric Peak Flow, the
    peak is the discharge of some row of the frame dated in the water
    year of the label, no discharge of a row dated in that water year is
    above it, and Median Flow is a number not above it. *)
Theorem GetAnnualStatistics_peak_dominates (df : DataFrame)
  (row : AnnualRow) (p : Q) :
  In row (GetAnnualStatistics sqrtQ df) ->
  a_Peak_Flow row = fin p ->
  exists wy,
    a_index row = year_end wy /\
    (exists r, In r df /\ water_year (Date r) = wy /\
               Discharge r = Some p) /\
    (forall r q, In r df -> water_year (Date r) = wy ->
                 Discharge r = Some q -> q <= p) /\
    (exists m, a_Median_Flow row = fin m /\ m <= p).
Proof.
  rewrite GetAnnualStatistics_rows. intros Hin Hp.
  apply in_map_iff in Hin. destruct Hin as [[t g] [<- Hin]].
  unfold resample_A_SEP in Hin.
  destruct (resample_by_keys water_year year_end df) as [ks E].
  rewrite E in Hin. apply in_map_iff in Hin.
  destruct Hin as [wy [Hwy _]]. injection Hwy as <- <-.
  cbn [fst snd annual_summary a_index a_Peak_Flow a_Median_Flow] in *.
  exists wy. split; [reflexivity|].
  assert (Hgroup : forall r, In r (group water_year wy (sort_index df)) <->
                             In r df /\ water_year (Date r) = wy).
  { intro r. rewrite group_sort_In. unfold group.
    rewrite filter_In, Z.eqb_eq. reflexivity. }
  split; [|split].
  - pose proof (max_attained _ _ Hp) as Hat. simpl in Hat.
    apply in_map_iff in Hat. destruct Hat as [r [Hd Hr]].
    apply Hgroup in Hr. exists r. tauto.
  - intros r q Hr Hw Hd. apply (max_ub _ _ Hp). simpl.
    apply in_map_iff. exists r. split; [exact Hd|]. apply Hgroup. tauto.
  - now apply median_le_max.
Qed.

End PeakDominates.

Lemma GetAnnualStatistics_peak_dominates_witness :
  let row := annual_summary (fun x => x) (year_end 1972)
               [sample_row 1971 10 1 (Some 3)] in
  In row (GetAnnualStatistics (fun x => x) sample_gap) /\
  a_Peak_Flow row = fin 3 /\
  exists wy,
    a_index row = year_end wy /\
    (exists r, In r sample_gap /\ water_year (Date r) = wy /\
               Discharge r = Some 3) /\
    (forall r q, In r sample_gap -> water_year (Date r) = wy ->
                 Discharge r = Some q -> q <= 3) /\
    (exists m, a_Median_Flow row = fin m /\ m <= 3).
Proof.
  intro row.
  assert (Hin : In row (GetAnnualStatistics (fun x => x) sample_gap))
    by (right; right; left; reflexivity).
  assert (Hp : a_Peak_Flow row = fin 3) by reflexivity.
  split; [exact Hin|]. split; [exact Hp|].
  exact (GetAnnualStatistics_peak_dominates (fun x => x) sample_gap row 3
           Hin Hp).
Defined.

(** * Further properties of the loader and the clipper *)

Lemma ReadData_run (fs : FileSystem) (fileName : string) (raw : DataFrame)
  (st : Store) :
  fs fileName = Some raw ->
  ReadData fs fileName st =
  Some ((S (length st), isna_sum (getitem col_Discharge raw)),
        update ((st ++ [raw]) ++ [set_index_Date raw]) (S (length st))
               (mask_negative raw)).
Proof.
  intro Hfile.
  assert (Hlen : length (st ++ [raw]) = S (length st))
    by (rewrite length_app; simpl; lia).
  assert (Hnew : nth_error ((st ++ [raw]) ++ [set_index_Date raw])
                           (S (length st)) = Some (set_index_Date raw))
    by (rewrite <- Hlen; apply nth_error_new).
  unfold ReadData, bind, read_csv. rewrite Hfile.
  unfold new, deref, assign, ret.
  rewrite nth_error_new, Hlen, Hnew. cbv beta iota.
  rewrite Hnew. reflexivity.
Qed.

Lemma ReadData_frame (raw : DataFrame) (st : Store) :
  nth_error (update ((st ++ [raw]) ++ [set_index_Date raw]) (S (length st))
                    (mask_negative raw)) (S (length st)) =
  Some (mask_negative raw).
Proof.
  apply nth_error_update_same. rewrite !length_app. simpl. lia.
Qed.

Lemma mask_negative_nonneg (df : DataFrame) :
  nonneg (dropna (getitem col_Discharge (mask_negative df))).
Proof.
  intros q Hq. apply In_dropna in Hq. simpl in Hq.
  apply in_map_iff in Hq. destruct Hq as [r [Hr Hin]].
  unfold mask_negative in Hin. apply in_map_iff in Hin.
  destruct Hin as [r0 [<- _]].
  destruct (negative (Discharge r0)) eqn:E; [discriminate|].
  rewrite Hr in E. simpl in E. now apply Qltb_ge.
Qed.

Lemma mask_negative_rows (df : DataFrame) (i : nat) (r : Row) :
  nth_error df i = Some r ->
  exists r', nth_error (mask_negative df) i = Some r' /\
    agency_cd r' = agency_cd r /\ site_no r' = site_no r /\
    Date r' = Date r /\ Quality r' = Quality r /\
    Discharge r' = if negative (Discharge r) then None else Discharge r.
Proof.
  intro H. unfold mask_negative. rewrite nth_error_map, H.
  cbn [option_map]. destruct (negative (Discharge r)) eqn:E.
  - eexists. split; [reflexivity|]. cbn [set_Discharge agency_cd site_no
      Date Quality Discharge]. tauto.
  - exists r. tauto.
Qed.

(** X7. When the file loads, the frame [ReadData] returns has the rows of
    the parsed file in the same order, each with its date, site and flags
    unchanged; a negative discharge has become missing and every other
    discharge is as parsed, so the frame holds no negative discharge; and
    the returned count is at most the number of rows. *)
Theorem ReadData_postcondition (fs : FileSystem) (fileName : string)
  (st : Store) (raw : DataFrame) (Hfile : fs fileName = Some raw) :
  exists DataDF n st' d,
    ReadData fs fileName st = Some ((DataDF, n), st') /\
    nth_error st' DataDF = Some d /\
    length d = length raw /\
    (forall i r, nth_error raw i = Some r ->
       exists r', nth_error d i = Some r' /\
         agency_cd r' = agency_cd r /\ site_no r' = site_no r /\
         Date r' = Date r /\ Quality r' = Quality r /\
         Discharge r' =
           if negative (Discharge r) then None else Discharge r) /\
    nonneg (dropna (getitem col_Discharge d)) /\
    (n <= length raw)%nat.
Proof.
  exists (S (length st)), (isna_sum (getitem col_Discharge raw)).
  eexists. exists (mask_negative raw).
  split; [now apply ReadData_run|].
  split; [apply ReadData_frame|].
  split; [unfold mask_negative; apply length_map|].
  split; [apply mask_negative_rows|].
  split; [apply mask_negative_nonneg|].
  unfold isna_sum. rewrite <- (length_map Discharge raw).
  apply filter_length_le.
Qed.

Lemma ReadData_postcondition_witness :
  exists DataDF n st' d,
    ReadData sample_fs "station.txt" [] = Some ((DataDF, n), st') /\
    nth_error st' DataDF = Some d /\
    map Discharge d = [None; None; Some 4] /\
    nonneg (dropna (getitem col_Discharge d)).
Proof.
  destruct (ReadData_postcondition sample_fs "station.txt" [] sample_frame
              eq_refl)
    as [r [n [st' [d [Hrun [Hd [_ [_ [Hnn _]]]]]]]]].
  exists r, n, st', d.
  split; [exact Hrun|]. split; [exact Hd|].
  split; [|exact Hnn].
  vm_compute in Hrun. injection Hrun as <- <- <-.
  vm_compute in Hd. injection Hd as <-. reflexivity.
Defined.

(** ** Slices *)

Lemma loc_slice_In (d : DataFrame) (a b : Timestamp) (r : Row) :
  In r (loc_slice d a b) <->
  In r d /\ ts_leb a (Date r) = true /\ ts_leb (Date r) b = true.
Proof.
  unfold loc_slice. rewrite filter_In, andb_true_iff. reflexivity.
Qed.

Lemma filter_nil {A} (f : A -> bool) (l : list A) :
  (forall x, In x l -> f x = false) -> filter f l = [].
Proof.
  induction l as [|x t IH]; intro H; [reflexivity|].
  simpl. rewrite (H x) by now left. apply IH.
  intros y Hy. apply H. now right.
Qed.














(** * Further properties of the aggregator *)

(** ** Months *)

Lemma month_number_start (k : Z) : month_number (month_start k) = k.
Proof.
  unfold month_number, month_start. cbn [year month].
  pose proof (Z.div_mod k 12). lia.
Qed.

Lemma month_number_same_month (d : Timestamp) (k : Z) :
  valid_date d = true ->
  (month_number d =? k)%Z = same_month (month_start k) d.
Proof.
  intro Hv. apply valid_date_bounds in Hv. destruct Hv as [Hm _].
  apply eq_true_iff_eq. unfold same_month, month_number, month_start.
  cbn [year month]. rewrite andb_true_iff, !Z.eqb_eq.
  pose proof (Z.div_mod k 12 ltac:(lia)) as D.
  pose proof (Z.mod_pos_bound k 12 ltac:(lia)) as B.
  split.
  - intros <-. lia.
  - intros [E1 E2]. rewrite E1, E2. lia.
Qed.

Lemma group_month (df : DataFrame) (k : Z) :
  (forall r, In r df -> valid_date (Date r) = true) ->
  group month_number k df =
  filter (fun r => same_month (month_start k) (Date r)) df.
Proof.
  intro Hv. unfold group. apply filter_ext_in.
  intros r Hr. apply month_number_same_month. now apply Hv.
Qed.

Lemma length_Zrange (lo hi : Z) : length (Zrange lo hi) = Z.to_nat (hi - lo + 1).
Proof.
  unfold Zrange. now rewrite length_map, length_seq.
Qed.

Section MonthlyTable.

Variable sqrtQ : Q -> Q.

(** X11. The monthly table of a non-empty daily series has exactly one row
    for every calendar month from that of the earliest date to that of the
    latest date, months without rows included.  The row of a month is
    labelled with the first day of the month and summarises, in date
    order, the rows dated in that month of that year; a series whose dates
    ascend is already in that order. *)
Theorem GetMonthlyStatistics_months (df : DataFrame)
  (Hne : df <> [])
  (Hvalid : forall r, In r df -> valid_date (Date r) = true) :
  exists lo hi,
    first_period month_number df = Some lo /\
    last_period month_number df = Some hi /\
    (forall r, In r df -> (lo <= month_number (Date r) <= hi)%Z) /\
    GetMonthlyStatistics sqrtQ df =
      map (fun k => monthly_summary sqrtQ (month_start k)
                      (filter (fun r => same_month (month_start k) (Date r))
                              (sort_index df)))
          (Zrange lo hi) /\
    (ascending df = true -> sort_index df = df) /\
    length (GetMonthlyStatistics sqrtQ df) = Z.to_nat (hi - lo + 1) /\
    NoDup (map m_index (GetMonthlyStatistics sqrtQ df)) /\
    (forall row, In row (GetMonthlyStatistics sqrtQ df) ->
       day (m_index row) = 1%Z /\ (1 <= month (m_index row) <= 12)%Z).
Proof.
  destruct (period_span month_number df Hne)
    as [lo [hi [Hlo [Hhi [Hspan _]]]]].
  exists lo, hi.
  assert (Hrows : GetMonthlyStatistics sqrtQ df =
      map (fun k => monthly_summary sqrtQ (month_start k)
                      (filter (fun r => same_month (month_start k) (Date r))
                              (sort_index df)))
          (Zrange lo hi)).
  { rewrite GetMonthlyStatistics_rows. unfold resample_MS.
    rewrite (resample_by_span _ _ _ _ _ Hlo Hhi), map_map.
    apply map_ext. intro k. cbn [fst snd].
    rewrite group_month; [reflexivity|].
    intros r Hr. apply Hvalid. now apply sort_index_In. }
  pose proof (sort_index_ascending df) as Hasc.
  repeat (split; [assumption|]).
  split; [rewrite Hrows, length_map; apply length_Zrange|].
  split.
  - rewrite Hrows, map_map. cbn [monthly_summary m_index].
    apply Injective_map_NoDup; [|apply NoDup_Zrange].
    intros x y. apply month_start_inj.
  - intros row Hrow. rewrite Hrows in Hrow. apply in_map_iff in Hrow.
    destruct Hrow as [k [<- _]]. cbn [monthly_summary m_index].
    unfold month_start. cbn [day month].
    pose proof (Z.mod_pos_bound k 12 ltac:(lia)). lia.
Qed.

End MonthlyTable.

Lemma GetMonthlyStatistics_months_witness :
  length (GetMonthlyStatistics (fun x => x) sample_gap) = 14%nat.
Proof.
  destruct (GetMonthlyStatistics_months (fun x => x) sample_gap)
    as [lo [hi [Hlo [Hhi [_ [_ [_ [Hlen _]]]]]]]].
  - discriminate.
  - intros r Hr. simpl in Hr.
    repeat (destruct Hr as [<-|Hr]; [reflexivity|]). destruct Hr.
  - injection Hlo as <-. injection Hhi as <-. exact Hlen.
Defined.

(** ** Every row in one period *)

Lemma filter_length_or {A} (f g : A -> bool) (l : list A) :
  (forall x, In x l -> f x = true -> g x = false) ->
  length (filter (fun x => f x || g x) l) =
  (length (filter f l) + length (filter g l))%nat.
Proof.
  induction l as [|x t IH]; intro H; [reflexivity|].
  assert (IHt : length (filter (fun x => f x || g x) t) =
                (length (filter f t) + length (filter g t))%nat)
    by (apply IH; intros y Hy; apply H; now right).
  cbn [filter]. destruct (f x) eqn:Ef.
  - rewrite (H x (or_introl eq_refl) Ef). cbn [orb length]. lia.
  - cbn [orb]. destruct (g x); cbn [length]; lia.
Qed.

Lemma groups_length (key : Timestamp -> Z) (df : DataFrame) (ks : list Z) :
  NoDup ks ->
  length (concat (map (fun b => group key b df) ks)) =
  length (filter (fun r => existsb (Z.eqb (key (Date r))) ks) df).
Proof.
  induction 1 as [|b ks Hb Hnd IH].
  - simpl. symmetry. rewrite filter_nil; [reflexivity|]. reflexivity.
  - cbn [map concat existsb]. rewrite length_app, IH.
    symmetry. apply (filter_length_or
      (fun r => (key (Date r) =? b)%Z)
      (fun r => existsb (Z.eqb (key (Date r))) ks)).
    intros r _ E. apply Z.eqb_eq in E.
    apply not_true_iff_false. intro Hex. apply existsb_exists in Hex.
    destruct Hex as [b' [Hin Hb']]. apply Z.eqb_eq in Hb'.
    apply Hb. congruence.
Qed.

Lemma resample_by_partition (key : Timestamp -> Z) (label : Z -> Timestamp)
  (df : DataFrame) :
  length (concat (map snd (resample_by key label df))) = length df.
Proof.
  destruct df as [|r0 t] eqn:Edf; [reflexivity|]. rewrite <- Edf.
  assert (Hne : df <> []) by (rewrite Edf; discriminate).
  destruct (period_span key df Hne) as [lo [hi [Hlo [Hhi [Hspan _]]]]].
  rewrite (resample_by_span _ _ _ _ _ Hlo Hhi), map_map. cbn [snd].
  rewrite groups_length by apply NoDup_Zrange.
  rewrite <- (length_sort_index df).
  f_equal. apply filter_id. intros r Hr. apply existsb_exists.
  exists (key (Date r)). split; [|apply Z.eqb_refl].
  apply In_Zrange. apply Hspan. now apply sort_index_In.
Qed.

Lemma resample_by_member (key : Timestamp -> Z) (label : Z -> Timestamp)
  (label_inj : forall x y, label x = label y -> x = y)
  (df : DataFrame) (t : Timestamp) (g : DataFrame) (r : Row) :
  In (t, g) (resample_by key label df) -> In r df ->
  (In r g <-> t = label (key (Date r))).
Proof.
  intros Hin Hr. destruct (resample_by_keys key label df) as [ks E].
  rewrite E in Hin. apply in_map_iff in Hin.
  destruct Hin as [b [Hb _]]. injection Hb as <- <-.
  rewrite group_sort_In. unfold group. rewrite filter_In, Z.eqb_eq. split.
  - intros [_ <-]. reflexivity.
  - intro H. apply label_inj in H. auto.
Qed.

(** X12. Resampling loses and duplicates nothing: the groups of the water
    years, and those of the months, together have as many rows as the
    frame, and a row of the frame is in a group exactly when the group is
    the one labelled with the row's own water year, respectively
    month. *)
Theorem resample_partition (df : DataFrame) :
  length (concat (map snd (resample_A_SEP df))) = length df /\
  length (concat (map snd (resample_MS df))) = length df /\
  (forall t g r, In (t, g) (resample_A_SEP df) -> In r df ->
     (In r g <-> t = year_end (water_year (Date r)))) /\
  (forall t g r, In (t, g) (resample_MS df) -> In r df ->
     (In r g <-> t = month_start (month_number (Date r)))).
Proof.
  split; [apply resample_by_partition|].
  split; [apply resample_by_partition|].
  split; intros t g r.
  - apply resample_by_member. exact year_end_inj.
  - apply resample_by_member. exact month_start_inj.
Qed.

Lemma resample_partition_witness :
  In (sample_row 1971 3 1 None)
     [sample_row 1970 10 1 None; sample_row 1971 3 1 None] <->
  year_end 1971 = year_end (water_year (mkTimestamp 1971 3 1)).
Proof.
  destruct (resample_partition sample_gap) as [_ [_ [H _]]].
  apply (H (year_end 1971)
           [sample_row 1970 10 1 None; sample_row 1971 3 1 None]
           (sample_row 1971 3 1 None)).
  - right. left. reflexivity.
  - right. right. left. reflexivity.
Defined.

(** * Properties of the averages *)

Lemma np_sum_between (v : list np_float) (a b : Q) :
  (forall x, In x v -> exists q, x = fin q /\ a <= q <= b) ->
  exists S, np_sum v = fin S /\
            a * Qof_nat (length v) <= S <= b * Qof_nat (length v).
Proof.
  induction v as [|x t IH]; intro H.
  - exists 0. split; [reflexivity|]. change (Qof_nat (length [])) with 0. lra.
  - destruct (H x (or_introl eq_refl)) as [q [-> Hq]].
    destruct IH as [S [ES HS]]; [intros y Hy; apply H; now right|].
    exists (q + S). split; [unfold np_sum in *; simpl; now rewrite ES|].
    simpl length. rewrite Qof_nat_S. clear H ES. lra.
Qed.

(** The mean of a column lies where its entries lie. *)
Lemma nanmean_between (col : list np_float) (a b : Q) :
  (forall x, In x col -> nan_or_between a b x) ->
  nan_or_between a b (nanmean col).
Proof.
  intro H. unfold nanmean.
  destruct (filter notna col) as [|x t] eqn:E; [exact I|].
  rewrite <- E.
  assert (Hv : forall y, In y (filter notna col) ->
                         exists q, y = fin q /\ a <= q <= b).
  { intros y Hy. apply filter_In in Hy. destruct Hy as [Hy Hn].
    specialize (H y Hy). destruct y as [|s|q]; [discriminate|destruct H|].
    now exists q. }
  destruct (np_sum_between _ a b Hv) as [S [ES HS]]. rewrite ES.
  assert (Hpos : 0 < Qof_nat (length (filter notna col)))
    by (apply Qof_nat_pos; rewrite E; simpl; lia).
  rewrite np_div_fin by lra. simpl. split.
  - apply Qle_shift_div_l; [exact Hpos|tauto].
  - apply Qle_shift_div_r; [exact Hpos|tauto].
Qed.

Lemma CalcTqmean_range (s : Series) : nan_or_between 0 1 (CalcTqmean s).
Proof.
  destruct s as [|x t] eqn:E; [exact I|]. rewrite <- E.
  assert (Hlen : (0 < length s)%nat) by (rewrite E; simpl; lia).
  pose proof (Qof_nat_pos _ Hlen) as Hpos.
  unfold CalcTqmean. cbv zeta. rewrite np_div_fin by lra. simpl. split.
  - apply Qdiv_nonneg; [apply Qof_nat_nonneg|exact Hpos].
  - apply Qle_shift_div_r; [exact Hpos|]. rewrite Qmult_1_l.
    apply Qof_nat_le, count_gt_le_length.
Qed.

Section AveragedFractions.

Variable sqrtQ : Q -> Q.

(** X13. Whatever the series, the annual average of Tqmean and every
    monthly average of Tqmean are NaN or a number between 0 and 1:
    averaging, which skips NaN, keeps the fraction a fraction. *)
Theorem average_Tqmean_is_fraction (df : DataFrame) :
  (exists x,
     loc_name "Tqmean" (GetAnnualAverages (GetAnnualStatistics sqrtQ df))
       = Some x /\ nan_or_between 0 1 x) /\
  (forall row,
     In row (GetMonthlyAverages (GetMonthlyStatistics sqrtQ df)) ->
     nan_or_between 0 1 (ma_Tqmean row)).
Proof.
  split.
  - eexists. split; [reflexivity|]. cbn [snd].
    apply nanmean_between. intros x Hx. apply in_map_iff in Hx.
    destruct Hx as [row [<- Hrow]].
    rewrite GetAnnualStatistics_rows in Hrow. apply in_map_iff in Hrow.
    destruct Hrow as [[t g] [<- _]]. apply CalcTqmean_range.
  - intros row Hrow. unfold GetMonthlyAverages in Hrow. cbv zeta in Hrow.
    apply in_map_iff in Hrow. destruct Hrow as [m [<- _]].
    cbn [ma_Tqmean]. apply nanmean_between. intros x Hx.
    apply in_map_iff in Hx. destruct Hx as [r [<- Hr]].
    apply filter_In in Hr. destruct Hr as [Hr _].
    rewrite GetMonthlyStatistics_rows in Hr. apply in_map_iff in Hr.
    destruct Hr as [[t g] [<- _]]. apply CalcTqmean_range.
Qed.

End AveragedFractions.

(** ** The keys of the monthly averages *)

Lemma insert_key_In (x y : Z) (l : list Z) :
  In y (insert_key x l) <-> y = x \/ In y l.
Proof.
  induction l as [|z t IH]; simpl; [intuition|].
  destruct (x <? z)%Z eqn:E1; [simpl; intuition|].
  destruct (x =? z)%Z eqn:E2.
  - apply Z.eqb_eq in E2. subst. simpl. intuition.
  - simpl. rewrite IH. intuition.
Qed.

Lemma group_keys_In (l : list Z) (y : Z) : In y (group_keys l) <-> In y l.
Proof.
  unfold group_keys. induction l as [|x t IH]; simpl; [tauto|].
  rewrite insert_key_In, IH. intuition.
Qed.

Lemma insert_key_sorted (x : Z) (l : list Z) :
  StronglySorted Z.lt l -> StronglySorted Z.lt (insert_key x l).
Proof.
  induction 1 as [|z t Ht IH Hz]; simpl.
  - apply SSorted_cons; [apply SSorted_nil|apply Forall_nil].
  - destruct (x <? z)%Z eqn:E1.
    + apply Z.ltb_lt in E1. apply SSorted_cons.
      * now apply SSorted_cons.
      * apply Forall_cons; [exact E1|].
        apply (Forall_impl _ (fun w Hw => Z.lt_trans _ _ _ E1 Hw) Hz).
    + apply Z.ltb_ge in E1. destruct (x =? z)%Z eqn:E2.
      * now apply SSorted_cons.
      * apply Z.eqb_neq in E2. apply SSorted_cons; [exact IH|].
        apply Forall_forall. intros w Hw. apply insert_key_In in Hw.
        destruct Hw as [->|Hw]; [lia|].
        rewrite Forall_forall in Hz. now apply Hz.
Qed.

Lemma group_keys_sorted (l : list Z) : StronglySorted Z.lt (group_keys l).
Proof.
  unfold group_keys. induction l as [|x t IH]; simpl; [apply SSorted_nil|].
  now apply insert_key_sorted.
Qed.

(** Two strictly increasing lists with the same elements are equal. *)
Lemma sorted_same_elements (l1 : list Z) :
  StronglySorted Z.lt l1 ->
  forall l2, StronglySorted Z.lt l2 ->
  (forall x, In x l1 <-> In x l2) -> l1 = l2.
Proof.
  induction 1 as [|a t1 Ht1 IH Ha]; intros l2 H2 Hsame.
  - destruct l2 as [|b t2]; [reflexivity|].
    exfalso. apply (proj2 (Hsame b)). now left.
  - destruct H2 as [|b t2 Ht2 Hb].
    + exfalso. apply (proj1 (Hsame a)). now left.
    + rewrite Forall_forall in Ha, Hb.
      assert (Eab : a = b).
      { destruct (proj1 (Hsame a) (or_introl eq_refl)) as [E|Hin];
          [congruence|].
        destruct (proj2 (Hsame b) (or_introl eq_refl)) as [E|Hin'];
          [congruence|].
        specialize (Ha _ Hin'). specialize (Hb _ Hin). lia. }
      subst b. f_equal. apply IH; [exact Ht2|].
      intro x. split; intro Hx.
      * destruct (proj1 (Hsame x) (or_intror Hx)) as [E|Hin]; [|exact Hin].
        specialize (Ha _ Hx). lia.
      * destruct (proj2 (Hsame x) (or_intror Hx)) as [E|Hin]; [|exact Hin].
        specialize (Hb _ Hx). lia.
Qed.

Lemma months_sorted : StronglySorted Z.lt (Zrange 1 12).
Proof.
  change (Zrange 1 12) with [1; 2; 3; 4; 5; 6; 7; 8; 9; 10; 11; 12]%Z.
  repeat (apply SSorted_cons;
          [|repeat (apply Forall_cons; [reflexivity|]); apply Forall_nil]).
  apply SSorted_nil.
Qed.

Section MonthlyAverageKeys.

Variable sqrtQ : Q -> Q.

Lemma monthly_labels (df : DataFrame) (lo hi : Z) :
  first_period month_number df = Some lo ->
  last_period month_number df = Some hi ->
  map (fun r => month (m_index r)) (GetMonthlyStatistics sqrtQ df) =
  map (fun k => (k mod 12 + 1)%Z) (Zrange lo hi).
Proof.
  intros Hlo Hhi. rewrite GetMonthlyStatistics_rows. unfold resample_MS.
  rewrite (resample_by_span _ _ _ _ _ Hlo Hhi), !map_map. reflexivity.
Qed.

(** X14. The monthly averages have one row per calendar month that occurs
    among the labels of the monthly table, in increasing order of month
    number, so at most twelve.  When the series spans twelve months or
    more, the rows are those of the months 1 to 12, in this order. *)
Theorem GetMonthlyAverages_months (df : DataFrame) :
  let keys :=
    map ma_month (GetMonthlyAverages (GetMonthlyStatistics sqrtQ df)) in
  StronglySorted Z.lt keys /\
  (forall m, In m keys -> (1 <= m <= 12)%Z) /\
  (length keys <= 12)%nat /\
  (forall lo hi,
     first_period month_number df = Some lo ->
     last_period month_number df = Some hi ->
     (lo + 11 <= hi)%Z -> keys = Zrange 1 12).
Proof.
  intro keys.
  assert (Ekeys : keys = group_keys
            (map (fun r => month (m_index r))
                 (GetMonthlyStatistics sqrtQ df))).
  { unfold keys, GetMonthlyAverages. cbv zeta. rewrite map_map.
    cbn [ma_month]. apply map_id. }
  assert (Hsorted : StronglySorted Z.lt keys)
    by (rewrite Ekeys; apply group_keys_sorted).
  assert (Hrange : forall m, In m keys -> (1 <= m <= 12)%Z).
  { intros m Hm. rewrite Ekeys, group_keys_In in Hm.
    apply in_map_iff in Hm. destruct Hm as [r [<- Hr]].
    rewrite GetMonthlyStatistics_rows in Hr. apply in_map_iff in Hr.
    destruct Hr as [[t g] [<- Hin]]. cbn [monthly_summary m_index fst].
    unfold resample_MS in Hin.
    destruct (resample_by_keys month_number month_start df) as [ks E].
    rewrite E in Hin. apply in_map_iff in Hin.
    destruct Hin as [k [Hk _]]. injection Hk as <- _.
    unfold month_start. cbn [month].
    pose proof (Z.mod_pos_bound k 12 ltac:(lia)). lia. }
  split; [exact Hsorted|]. split; [exact Hrange|]. split.
  - assert (Hincl : incl keys (Zrange 1 12))
      by (intros m Hm; apply In_Zrange; now apply Hrange).
    apply (NoDup_incl_length (l' := Zrange 1 12)); [|exact Hincl].
    clear -Hsorted. induction Hsorted as [|a t Ht IH Ha];
      [apply NoDup_nil|].
    apply NoDup_cons; [|exact IH]. intro Hin.
    rewrite Forall_forall in Ha. specialize (Ha a Hin). lia.
  - intros lo hi Hlo Hhi Hspan.
    apply sorted_same_elements; [exact Hsorted|apply months_sorted|].
    intro m. rewrite In_Zrange. split; [apply Hrange|]. intro Hm.
    rewrite Ekeys. apply group_keys_In.
    rewrite (monthly_labels df lo hi Hlo Hhi). apply in_map_iff.
    exists (lo + (m - 1 - lo) mod 12)%Z.
    pose proof (Z.mod_pos_bound (m - 1 - lo) 12 ltac:(lia)) as B.
    split; [|apply In_Zrange; lia].
    assert (E : ((lo + (m - 1 - lo) mod 12) mod 12 = m - 1)%Z).
    { rewrite Zplus_mod_idemp_r.
      replace (lo + (m - 1 - lo))%Z with (m - 1)%Z by lia.
      apply Z.mod_small. lia. }
    lia.
Qed.

End MonthlyAverageKeys.

Lemma GetMonthlyAverages_months_witness :
  map ma_month
      (GetMonthlyAverages (GetMonthlyStatistics (fun x => x) sample_gap)) =
  Zrange 1 12.
Proof.
  destruct (GetMonthlyAverages_months (fun x => x) sample_gap)
    as [_ [_ [_ H]]].
  apply (H 23648%Z 23661%Z); [reflexivity|reflexivity|lia].
Defined.

(** ** Averaging a single year *)

Lemma feq_refl (x : np_float) : feq x x.
Proof. destruct x; simpl; reflexivity. Qed.

Lemma nanmean_singleton (x : np_float) : feq (nanmean [x]) x.
Proof.
  destruct x as [|s|q]; unfold nanmean; simpl.
  - exact I.
  - destruct s; reflexivity.
  - unfold Qof_nat. simpl. field.
Qed.

Lemma filter_map_unique {A B} (p : B -> bool) (F : A -> B) (ks : list A)
  (k : A) :
  NoDup ks -> In k ks ->
  (forall k', In k' ks -> p (F k') = true -> k' = k) ->
  p (F k) = true ->
  filter p (map F ks) = [F k].
Proof.
  induction 1 as [|a t Ha Hnd IH]; intros Hin Hu Hk; [destruct Hin|].
  cbn [map filter]. destruct Hin as [->|Hin].
  - rewrite Hk. f_equal. apply filter_nil. intros y Hy.
    apply in_map_iff in Hy. destruct Hy as [k' [<- Hk']].
    apply not_true_iff_false. intro Hp.
    apply Ha. rewrite <- (Hu k' (or_intror Hk') Hp). exact Hk'.
  - destruct (p (F a)) eqn:Ea.
    + exfalso. apply Ha. rewrite (Hu a (or_introl eq_refl) Ea). exact Hin.
    + apply IH; [exact Hin| |exact Hk].
      intros k' Hk'. apply Hu. now right.
Qed.

Section SingleYear.

Variable sqrtQ : Q -> Q.

(** X15. When the series spans at most twelve months, averaging per
    calendar month averages one row each: every row of the monthly table
    has a row in the monthly averages with its month number and the same
    site, Mean Flow, Coeff Var, Tqmean and R-B Index. *)
Theorem GetMonthlyAverages_single_year (df : DataFrame) (lo hi : Z) :
  first_period month_number df = Some lo ->
  last_period month_number df = Some hi ->
  (hi <= lo + 11)%Z ->
  forall row, In row (GetMonthlyStatistics sqrtQ df) ->
  exists avg,
    In avg (GetMonthlyAverages (GetMonthlyStatistics sqrtQ df)) /\
    ma_month avg = month (m_index row) /\
    feq (ma_site_no avg) (m_site_no row) /\
    feq (ma_Mean_Flow avg) (m_Mean_Flow row) /\
    feq (ma_Coeff_Var avg) (m_Coeff_Var row) /\
    feq (ma_Tqmean avg) (m_Tqmean row) /\
    feq (ma_RB_Index avg) (m_RB_Index row).
Proof.
  intros Hlo Hhi Hspan row Hrow.
  set (F := fun k => monthly_summary sqrtQ (month_start k)
                       (group month_number k (sort_index df))).
  assert (Htab : GetMonthlyStatistics sqrtQ df = map F (Zrange lo hi)).
  { rewrite GetMonthlyStatistics_rows. unfold resample_MS.
    rewrite (resample_by_span _ _ _ _ _ Hlo Hhi), map_map. reflexivity. }
  rewrite Htab in Hrow. apply in_map_iff in Hrow.
  destruct Hrow as [k [<- Hk]].
  set (m := month (m_index (F k))).
  assert (Hfilter :
    filter (fun r => (month (m_index r) =? m)%Z) (map F (Zrange lo hi))
    = [F k]).
  { apply filter_map_unique; [apply NoDup_Zrange|exact Hk| |apply Z.eqb_refl].
    intros k' Hk' E. apply Z.eqb_eq in E. unfold m, F in E.
    cbn [monthly_summary m_index month_start month] in E.
    apply In_Zrange in Hk, Hk'.
    pose proof (Z.div_mod k 12 ltac:(lia)).
    pose proof (Z.div_mod k' 12 ltac:(lia)).
    pose proof (Z.mod_pos_bound k 12 ltac:(lia)).
    pose proof (Z.mod_pos_bound k' 12 ltac:(lia)). lia. }
  unfold GetMonthlyAverages. cbv zeta. rewrite Htab.
  eexists. split.
  - apply in_map_iff. exists m. split; [reflexivity|].
    apply group_keys_In. apply in_map_iff. exists (F k).
    split; [reflexivity|]. apply in_map_iff. now exists k.
  - rewrite Hfilter. cbn [ma_month ma_site_no ma_Mean_Flow ma_Coeff_Var
      ma_Tqmean ma_RB_Index map].
    split; [reflexivity|]. repeat split; apply nanmean_singleton.
Qed.

End SingleYear.

Lemma GetMonthlyAverages_single_year_witness :
  exists avg,
    In avg (GetMonthlyAverages
              (GetMonthlyStatistics (fun x => x) sample_year)) /\
    ma_month avg = 10%Z /\
    feq (ma_Mean_Flow avg) (fin 10).
Proof.
  destruct (GetMonthlyAverages_single_year (fun x => x) sample_year
              23649%Z 23660%Z eq_refl eq_refl ltac:(lia)
              (monthly_summary (fun x => x) (month_start 23649)
                 (group month_number 23649 sample_year))
              (or_introl eq_refl))
    as [avg [H1 [H2 [_ [H3 _]]]]].
  exists avg. split; [exact H1|]. split; [exact H2|exact H3].
Defined.

(** * Properties of the script *)


Lemma loc_slice_mask_negative (raw : DataFrame) (a b : Timestamp) :
  loc_slice (mask_negative raw) a b = mask_negative (loc_slice raw a b).
Proof.
  unfold loc_slice, mask_negative. induction raw as [|r t IH]; [reflexivity|].
  cbn [map filter].
  assert (E : Date (if negative (Discharge r) then set_Discharge None r
                    else r) = Date r)
    by (destruct (negative (Discharge r)); reflexivity).
  rewrite E.
  destruct (ts_leb a (Date r) && ts_leb (Date r) b); cbn [map];
    now rewrite IH.
Qed.

Section ScriptProperties.

Variable sqrtQ : Q -> Q.

Lemma process_station_run (fs : FileSystem) (fileName : string)
  (raw : DataFrame) (st : Store) :
  fs fileName = Some raw ->
  let d := mask_negative (in_period raw) in
  let st1 := update ((st ++ [raw]) ++ [set_index_Date raw]) (S (length st))
                    (mask_negative raw) in
  process_station sqrtQ fs fileName st =
  Some (mkStationTables (length st1)
          (isna_sum (getitem col_Discharge d))
          (GetAnnualStatistics sqrtQ d)
          (GetAnnualAverages (GetAnnualStatistics sqrtQ d))
          (GetMonthlyStatistics sqrtQ d)
          (GetMonthlyAverages (GetMonthlyStatistics sqrtQ d)),
        st1 ++ [d]).
Proof.
  intros Hfile d st1. unfold process_station, bind at 1.
  rewrite (ReadData_run fs fileName raw st Hfile). cbn [fst].
  fold st1. unfold bind at 1.
  rewrite (ClipData_run st1 (S (length st)) (mask_negative raw)
             clip_start clip_end (ReadData_frame raw st)).
  rewrite loc_slice_mask_negative. fold (in_period raw). fold d.
  cbn [fst snd]. unfold bind, deref, ret.
  rewrite nth_error_new. reflexivity.
Qed.

Lemma process_station_inv (fs : FileSystem) (fileName : string)
  (st st' : Store) (tables : StationTables) :
  process_station sqrtQ fs fileName st = Some (tables, st') ->
  exists raw, fs fileName = Some raw /\
    let d := mask_negative (in_period raw) in
    nth_error st' (t_DataDF tables) = Some d /\
    t_MissingValues tables = isna_sum (getitem col_Discharge d) /\
    t_WYDataDF tables = GetAnnualStatistics sqrtQ d /\
    t_AnnualAverages tables =
      GetAnnualAverages (GetAnnualStatistics sqrtQ d) /\
    t_MoDataDF tables = GetMonthlyStatistics sqrtQ d /\
    t_MonthlyAverages tables =
      GetMonthlyAverages (GetMonthlyStatistics sqrtQ d).
Proof.
  intro H. destruct (fs fileName) as [raw|] eqn:Hfile.
  - exists raw. split; [reflexivity|].
    rewrite (process_station_run fs fileName raw st Hfile) in H.
    cbv zeta in H. injection H as <- <-. cbv zeta.
    cbn [t_DataDF t_MissingValues t_WYDataDF t_AnnualAverages t_MoDataDF
         t_MonthlyAverages].
    split; [apply nth_error_new|]. repeat split; reflexivity.
  - unfold process_station, bind, ReadData, bind, read_csv in H.
    rewrite Hfile in H. discriminate.
Qed.


End ScriptProperties.


(** ** Size of the tables *)

Lemma resample_by_bounded (key : Timestamp -> Z) (label : Z -> Timestamp)
  (df : DataFrame) (A B : Z) :
  (forall r, In r df -> (A <= key (Date r) <= B)%Z) ->
  (length (resample_by key label df) <= Z.to_nat (B - A + 1))%nat /\
  (forall p, In p (resample_by key label df) ->
     exists b, (A <= b <= B)%Z /\ fst p = label b).
Proof.
  intro Hkeys. destruct df as [|r0 t] eqn:Edf.
  - split; [simpl; lia|intros p []].
  - rewrite <- Edf in *.
    assert (Hne : df <> []) by (rewrite Edf; discriminate).
    destruct (period_span key df Hne)
      as [lo [hi [Hlo [Hhi [_ [[r1 [Hr1 E1]] [r2 [Hr2 E2]]]]]]]].
    pose proof (Hkeys r1 Hr1) as B1. pose proof (Hkeys r2 Hr2) as B2.
    rewrite (resample_by_span _ _ _ _ _ Hlo Hhi). split.
    + rewrite length_map, length_Zrange. lia.
    + intros p Hp. apply in_map_iff in Hp. destruct Hp as [b [<- Hb]].
      apply In_Zrange in Hb. exists b. split; [lia|reflexivity].
Qed.

Lemma in_period_dates (raw : DataFrame) (r : Row) :
  In r (mask_negative (in_period raw)) ->
  ts_leb clip_start (Date r) = true /\ ts_leb (Date r) clip_end = true /\
  exists r0, In r0 raw /\ Date r0 = Date r.
Proof.
  intro H. unfold mask_negative in H. apply in_map_iff in H.
  destruct H as [r0 [E Hr0]].
  assert (Ed : Date r = Date r0)
    by (rewrite <- E; destruct (negative (Discharge r0)); reflexivity).
  unfold in_period in Hr0. apply loc_slice_In in Hr0.
  destruct Hr0 as [H0 [H1 H2]]. rewrite Ed.
  split; [exact H1|]. split; [exact H2|]. now exists r0.
Qed.

Lemma water_year_in_period (d : Timestamp) :
  ts_leb clip_start d = true -> ts_leb d clip_end = true ->
  (1970 <= water_year d <= 2019)%Z.
Proof.
  rewrite !ts_leb_spec, !ts_ltb_spec. unfold clip_start, clip_end.
  cbn [year month day]. intros H1 H2. unfold water_year.
  destruct (10 <=? month d)%Z eqn:E;
    [apply Z.leb_le in E|apply Z.leb_gt in E]; lia.
Qed.

Lemma month_number_in_period (d : Timestamp) :
  valid_date d = true ->
  ts_leb clip_start d = true -> ts_leb d clip_end = true ->
  (23637 <= month_number d <= 24236)%Z.
Proof.
  intro Hv. apply valid_date_bounds in Hv. destruct Hv as [Hm _].
  rewrite !ts_leb_spec, !ts_ltb_spec. unfold clip_start, clip_end.
  cbn [year month day]. intros H1 H2. unfold month_number. lia.
Qed.

Section TableSizes.

Variable sqrtQ : Q -> Q.

(** X17. Whatever the station file holds, the annual table the script
    builds has at most 50 rows, each labelled September 30 of a year from
    1970 to 2019, and the annual averages have the ten columns of that
    table.  When the dates of the file are calendar days, the monthly
    table has at most 600 rows and the monthly averages at most 12. *)
Theorem process_station_table_sizes (fs : FileSystem) (fileName : string)
  (st st' : Store) (tables : StationTables) :
  process_station sqrtQ fs fileName st = Some (tables, st') ->
  (length (t_WYDataDF tables) <= 50)%nat /\
  (forall row, In row (t_WYDataDF tables) ->
     exists wy, (1970 <= wy <= 2019)%Z /\ a_index row = year_end wy) /\
  map fst (t_AnnualAverages tables) = map fst annual_columns /\
  ((forall raw r, fs fileName = Some raw -> In r raw ->
      valid_date (Date r) = true) ->
   (length (t_MoDataDF tables) <= 600)%nat /\
   (length (t_MonthlyAverages tables) <= 12)%nat).
Proof.
  intro Hrun. apply process_station_inv in Hrun.
  destruct Hrun as [raw [Hfile Hrun]]. cbv zeta in Hrun.
  destruct Hrun as [_ [_ [Hwy [Haa [Hmo Hma]]]]].
  set (d := mask_negative (in_period raw)) in *.
  assert (Hyears : forall r, In r d ->
                     (1970 <= water_year (Date r) <= 2019)%Z).
  { intros r Hr. apply in_period_dates in Hr.
    destruct Hr as [H1 [H2 _]]. now apply water_year_in_period. }
  destruct (resample_by_bounded water_year year_end d 1970 2019 Hyears)
    as [Hlen Hlab].
  split; [|split; [|split]].
  - rewrite Hwy, GetAnnualStatistics_rows, length_map. exact Hlen.
  - intros row Hrow. rewrite Hwy, GetAnnualStatistics_rows in Hrow.
    apply in_map_iff in Hrow. destruct Hrow as [p [<- Hp]].
    cbn [annual_summary a_index]. now apply Hlab.
  - rewrite Haa. unfold GetAnnualAverages. cbv zeta.
    rewrite map_map. reflexivity.
  - intro Hvalid.
    assert (Hmonths : forall r, In r d ->
                        (23637 <= month_number (Date r) <= 24236)%Z).
    { intros r Hr. apply in_period_dates in Hr.
      destruct Hr as [H1 [H2 [r0 [Hr0 E]]]].
      apply month_number_in_period; [|exact H1|exact H2].
      rewrite <- E. now apply (Hvalid raw). }
    destruct (resample_by_bounded month_number month_start d 23637 24236
                Hmonths) as [Hlen' _].
    split.
    + rewrite Hmo, GetMonthlyStatistics_rows, length_map. exact Hlen'.
    + rewrite Hma.
      assert (Hkeys : forall m,
        In m (map ma_month (GetMonthlyAverages
                              (GetMonthlyStatistics sqrtQ d))) ->
        In m (Zrange 1 12)).
      { intros m Hm. unfold GetMonthlyAverages in Hm. cbv zeta in Hm.
        rewrite map_map in Hm. cbn [ma_month] in Hm. rewrite map_id in Hm.
        rewrite group_keys_In in Hm. apply in_map_iff in Hm.
        destruct Hm as [r [<- Hr]].
        rewrite GetMonthlyStatistics_rows in Hr. apply in_map_iff in Hr.
        destruct Hr as [[t g] [<- Hin]]. cbn [monthly_summary m_index fst].
        unfold resample_MS in Hin.
        destruct (resample_by_keys month_number month_start d) as [ks E].
        rewrite E in Hin. apply in_map_iff in Hin.
        destruct Hin as [k [Hk _]]. injection Hk as <- _.
        unfold month_start. cbn [month]. apply In_Zrange.
        pose proof (Z.mod_pos_bound k 12 ltac:(lia)). lia. }
      rewrite <- (length_map ma_month).
      apply (NoDup_incl_length (l' := Zrange 1 12)); [|exact Hkeys].
      unfold GetMonthlyAverages. cbv zeta. rewrite map_map.
      cbn [ma_month]. rewrite map_id.
      pose proof (group_keys_sorted
                    (map (fun r => month (m_index r))
                         (GetMonthlyStatistics sqrtQ d))) as Hs.
      induction Hs as [|a t Ht IH Ha]; [apply NoDup_nil|].
      apply NoDup_cons; [|exact IH]. intro Hin.
      rewrite Forall_forall in Ha. specialize (Ha a Hin). lia.
Qed.

End TableSizes.

Lemma process_station_table_sizes_witness :
  exists tables st',
    process_station (fun x => x) sample_fs "station.txt" [] =
      Some (tables, st') /\
    (length (t_WYDataDF tables) <= 50)%nat /\
    (length (t_MoDataDF tables) <= 600)%nat /\
    (length (t_MonthlyAverages tables) <= 12)%nat.
Proof.
  pose proof (process_station_run (fun x => x) sample_fs "station.txt"
                sample_frame [] eq_refl) as Hrun.
  cbv zeta in Hrun.
  match type of Hrun with _ = Some (?t, ?s) => set (tables := t) in *;
    set (st' := s) in * end.
  destruct (process_station_table_sizes (fun x => x) sample_fs
              "station.txt" [] st' tables Hrun) as [H1 [_ [_ H2]]].
  exists tables, st'. split; [exact Hrun|]. split; [exact H1|].
  apply H2. intros raw r Hraw Hr. injection Hraw as <-. simpl in Hr.
  repeat (destruct Hr as [<-|Hr]; [reflexivity|]). destruct Hr.
Defined.

(** ** No negative statistic *)

Lemma mean_nonneg (s : Series) : nonneg (dropna s) -> nan_or_nonneg (mean s).
Proof.
  intro H. unfold mean. destruct (dropna s) as [|x t] eqn:E; [exact I|].
  simpl. apply Qdiv_nonneg.
  - unfold sum. rewrite E. now apply Qsum_nonneg.
  - apply Qof_nat_pos. unfold count. rewrite E. simpl. lia.
Qed.

Lemma max_nonneg (s : Series) : nonneg (dropna s) -> nan_or_nonneg (max s).
Proof.
  intro H. unfold max. destruct (dropna s) as [|x t] eqn:E; [exact I|].
  simpl. apply Qle_trans with x; [apply H; now left|].
  apply Qlist_max_ub. now left.
Qed.

Lemma median_nonneg (s : Series) :
  nonneg (dropna s) -> nan_or_nonneg (median s).
Proof.
  intro H. destruct (dropna s) as [|x t] eqn:E.
  - unfold median. rewrite E. exact I.
  - assert (Hne : dropna s <> []) by (rewrite E; discriminate).
    rewrite <- E in H.
    destruct (median_middle s Hne) as [med [-> [Hlo _]]]. simpl.
    apply Qle_trans
      with (nth ((length (sort (dropna s)) - 1) / 2) (sort (dropna s)) 0);
      [|exact Hlo].
    apply H. apply (Permutation_in _ (sort_perm (dropna s))). apply nth_In.
    assert (Hpos : (0 < length (sort (dropna s)))%nat).
    { rewrite (Permutation_length (sort_perm (dropna s))), E. simpl. lia. }
    pose proof (Nat.div_mod_eq (length (sort (dropna s)) - 1) 2).
    pose proof (Nat.mod_upper_bound (length (sort (dropna s)) - 1) 2). lia.
Qed.

Lemma Calc7Q_nonneg (s : Series) :
  nonneg (dropna s) -> nan_or_nonneg (Calc7Q s).
Proof.
  intro H. unfold Calc7Q.
  destruct (min_cases (rolling_mean 7 s)) as [->|[m [-> Hm]]]; [exact I|].
  simpl. apply In_rolling_mean in Hm. destruct Hm as [i [_ Hm]].
  destruct (i + 1 <? 7)%nat; [discriminate|].
  unfold window_mean in Hm.
  destruct (7 <=? count (window_at 7 s i))%nat eqn:E; [|discriminate].
  apply Nat.leb_le in E. injection Hm as ->.
  apply Qdiv_nonneg; [|apply Qof_nat_pos; lia].
  apply Qsum_nonneg. intros q Hq. apply H.
  rewrite In_dropna in *. now apply In_window_at_In in Hq.
Qed.

Lemma group_nonneg (key : Timestamp -> Z) (b : Z) (d : DataFrame) :
  nonneg (dropna (getitem col_Discharge d)) ->
  nonneg (dropna (getitem col_Discharge (group key b (sort_index d)))).
Proof.
  intros H q Hq. apply H. rewrite In_dropna in *. simpl in *.
  apply in_map_iff in Hq. destruct Hq as [r [E Hr]].
  apply in_map_iff. exists r. split; [exact E|].
  rewrite group_sort_In in Hr. unfold group in Hr.
  now apply filter_In in Hr.
Qed.

Section NoNegativeStatistic.

Variable sqrtQ : Q -> Q.

(** X18. The script never reports a negative flow statistic: in every row
    of the annual table it builds, Mean Flow, Peak Flow, Median Flow, 7Q
    and the R-B Index are NaN or a number that is not negative; so are
    Mean Flow and the R-B Index of every row of the monthly table.  This
    holds whatever the file contains, because the loader has turned the
    negative discharges to missing. *)
Theorem process_station_no_negative (fs : FileSystem) (fileName : string)
  (st st' : Store) (tables : StationTables) :
  process_station sqrtQ fs fileName st = Some (tables, st') ->
  (forall row, In row (t_WYDataDF tables) ->
     nan_or_nonneg (a_Mean_Flow row) /\ nan_or_nonneg (a_Peak_Flow row) /\
     nan_or_nonneg (a_Median_Flow row) /\ nan_or_nonneg (a_7Q row) /\
     nan_or_nonneg (a_RB_Index row)) /\
  (forall row, In row (t_MoDataDF tables) ->
     nan_or_nonneg (m_Mean_Flow row) /\
     nan_or_nonneg (m_RB_Index row)).
Proof.
  intro Hrun. apply process_station_inv in Hrun.
  destruct Hrun as [raw [Hfile Hrun]]. cbv zeta in Hrun.
  destruct Hrun as [_ [_ [Hwy [_ [Hmo _]]]]].
  pose proof (mask_negative_nonneg (in_period raw)) as Hnn.
  split.
  - intros row Hrow. rewrite Hwy, GetAnnualStatistics_rows in Hrow.
    apply in_map_iff in Hrow. destruct Hrow as [[t g] [<- Hin]].
    unfold resample_A_SEP in Hin.
    destruct (resample_by_keys water_year year_end
                (mask_negative (in_period raw))) as [ks E].
    rewrite E in Hin. apply in_map_iff in Hin.
    destruct Hin as [b [Hb _]]. injection Hb as <- <-.
    pose proof (group_nonneg water_year b _ Hnn) as Hg.
    cbn [fst snd annual_summary a_Mean_Flow a_Peak_Flow a_Median_Flow
         a_7Q a_RB_Index].
    split; [now apply mean_nonneg|]. split; [now apply max_nonneg|].
    split; [now apply median_nonneg|]. split; [now apply Calc7Q_nonneg|].
    now apply CalcRBindex_nonneg.
  - intros row Hrow. rewrite Hmo, GetMonthlyStatistics_rows in Hrow.
    apply in_map_iff in Hrow. destruct Hrow as [[t g] [<- Hin]].
    unfold resample_MS in Hin.
    destruct (resample_by_keys month_number month_start
                (mask_negative (in_period raw))) as [ks E].
    rewrite E in Hin. apply in_map_iff in Hin.
    destruct Hin as [b [Hb _]]. injection Hb as <- <-.
    pose proof (group_nonneg month_number b _ Hnn) as Hg.
    cbn [fst snd monthly_summary m_Mean_Flow m_RB_Index].
    split; [now apply mean_nonneg|now apply CalcRBindex_nonneg].
Qed.

End NoNegativeStatistic.

Lemma process_station_no_negative_witness :
  exists tables st',
    process_station (fun x => x) sample_fs "station.txt" [] =
      Some (tables, st') /\
    (forall row, In row (t_WYDataDF tables) ->
       nan_or_nonneg (a_Mean_Flow row) /\ nan_or_nonneg (a_Peak_Flow row) /\
       nan_or_nonneg (a_Median_Flow row) /\ nan_or_nonneg (a_7Q row) /\
       nan_or_nonneg (a_RB_Index row)).
Proof.
  pose proof (process_station_run (fun x => x) sample_fs "station.txt"
                sample_frame [] eq_refl) as Hrun.
  cbv zeta in Hrun.
  match type of Hrun with _ = Some (?t, ?s) => set (tables := t) in *;
    set (st' := s) in * end.
  exists tables, st'. split; [exact Hrun|].
  exact (proj1 (process_station_no_negative (fun x => x) sample_fs
                  "station.txt" [] st' tables Hrun)).
Defined.
